(** * lets-summarize-api: the summarization utilities and service

    A shallow embedding of
      - src/utils/summarization.util.ts (both revisions of the file),
      - src/summarization/summarization.service.ts,
    together with the small part of the JavaScript runtime they rely on
    (strings, regular expressions, [path], exceptions, promises), and the
    properties of the pipeline stated against that embedding.

    JavaScript strings are modelled as [string]: sequences of 8-bit code
    units.  Objects are finite maps from property names to values, kept in a
    heap so that aliasing and mutation can be talked about. *)

From Stdlib Require Import Ascii ZArith Lia.
From stdpp Require Import gmap strings list.

Local Open Scope char_scope.
Local Open Scope stdpp_scope.

(* ===================================================================== *)
(** ** JavaScript strings and arrays of strings *)
(* ===================================================================== *)

Module Js.

Definition code (c : ascii) : N := N_of_ascii c.

Definition inRange (lo hi c : ascii) : bool :=
  (code lo <=? code c)%N && (code c <=? code hi)%N.

(** WhiteSpace and LineTerminator code units below 256: TAB, LF, VT, FF,
    CR, SPACE and NBSP.  This is the set [String.prototype.trim] strips. *)
Definition isWhiteSpace (c : ascii) : bool :=
  inRange "009" "013" c || Ascii.eqb c " " || Ascii.eqb c "160".

Fixpoint trimStart (s : string) : string :=
  match s with
  | EmptyString => EmptyString
  | String c s' => if isWhiteSpace c then trimStart s' else s
  end.

Fixpoint trimEnd (s : string) : string :=
  match s with
  | EmptyString => EmptyString
  | String c s' =>
      match trimEnd s' with
      | EmptyString => if isWhiteSpace c then EmptyString else String c EmptyString
      | t => String c t
      end
  end.

(** [s.trim()] *)
Definition trim (s : string) : string := trimEnd (trimStart s).

(** [s.split(sep)] for a one-character separator.  Splitting the empty
    string yields one empty piece. *)
Fixpoint split (sep : ascii) (s : string) : list string :=
  match s with
  | EmptyString => [EmptyString]
  | String c s' =>
      if Ascii.eqb c sep then EmptyString :: split sep s'
      else match split sep s' with
           | w :: ws => String c w :: ws
           | [] => [String c EmptyString]
           end
  end.

(** [a.join(sep)] *)
Fixpoint join (sep : string) (a : list string) : string :=
  match a with
  | [] => EmptyString
  | [x] => x
  | x :: a' => x +:+ sep +:+ join sep a'
  end.

(** [a.slice(0, n)] for [n >= 0] *)
Definition slice0 {A} (n : nat) (a : list A) : list A := take n a.

(** [s.startsWith(p)] *)
Fixpoint startsWith (p s : string) : bool :=
  match p, s with
  | EmptyString, _ => true
  | String a p', String b s' => Ascii.eqb a b && startsWith p' s'
  | String _ _, EmptyString => false
  end.

(** [c.toLowerCase()] on one code unit: A-Z, and the Latin-1 capitals
    (0xC0-0xDE except the multiplication sign 0xD7). *)
Definition lowerChar (c : ascii) : ascii :=
  if inRange "A" "Z" c
     || (inRange "192" "222" c && negb (Ascii.eqb c "215"))
  then ascii_of_N (code c + 32)
  else c.

Fixpoint toLowerCase (s : string) : string :=
  match s with
  | EmptyString => EmptyString
  | String c s' => String (lowerChar c) (toLowerCase s')
  end.

(** Truthiness of an optional string (a [string | undefined | null]):
    absent and the empty string are falsy. *)
Definition truthy (v : option string) : bool :=
  match v with
  | Some (String _ _) => true
  | _ => false
  end.

(** Exceptions.  [BadRequestException] and
    [UnsupportedMediaTypeException] are the NestJS HTTP exceptions; [Error]
    is the plain JavaScript error; [ProviderError] stands for whatever an
    external library (transcript fetcher, downloader, OpenAI client,
    document parser) throws; [TypeError] is raised by the runtime when a
    property of [undefined] is read. *)
Inductive exn : Type :=
| BadRequestException (message : string)
| UnsupportedMediaTypeException (message : string)
| Error (message : string)
| ProviderError (message : string)
| TypeError (message : string).

(** [error.message] *)
Definition message (e : exn) : string :=
  match e with
  | BadRequestException m | UnsupportedMediaTypeException m
  | Error m | ProviderError m | TypeError m => m
  end.

Definition isBadRequest (e : exn) : bool :=
  match e with BadRequestException _ => true | _ => false end.

(** The outcome of evaluating an expression, or the settled state of a
    promise: a value, or an exception (a rejection). *)
Inductive outcome (A : Type) : Type :=
| Value (a : A)
| Raise (e : exn).
Global Arguments Value {A} a.
Global Arguments Raise {A} e.

(** Values that can sit in a property of an options object. *)
Inductive val : Type :=
| VUndefined
| VNull
| VBool (b : bool)
| VStr (s : string).

Global Instance val_eq_dec : EqDecision val.
Proof. solve_decision. Defined.

(** [v ?? d] *)
Definition nullish (v : val) : bool :=
  match v with VUndefined | VNull => true | _ => false end.
Definition coalesce (v d : val) : val := if nullish v then d else v.

(** [`${v}`] *)
Definition toString (v : val) : string :=
  match v with
  | VUndefined => "undefined"
  | VNull => "null"
  | VBool true => "true"
  | VBool false => "false"
  | VStr s => s
  end.

End Js.
Export Js.

(* ===================================================================== *)
(** ** Regular expressions (the fragment the utilities use) *)
(* ===================================================================== *)

Module Regex.

(** Syntax.  [Many1] is a greedy [+] over a one-character matcher, which is
    the only repetition operator with a variable length in the source. *)
Inductive regex : Type :=
| Bos                               (* ^ *)
| Eos                               (* $ *)
| Lit (s : string)                  (* a literal run of characters *)
| Cls (p : ascii → bool)            (* a character class, or . *)
| Seq (r1 r2 : regex)               (* r1 r2 *)
| Alt (r1 r2 : regex)               (* r1|r2 *)
| Opt (r : regex)                   (* r? (greedy) *)
| Rep (n : nat) (r : regex)         (* r{n} *)
| Many1 (p : ascii → bool)          (* p+ (greedy) *)
| Group (i : nat) (r : regex).      (* i-th capturing group *)

(** Capture groups matched so far, most recent first. *)
Definition captures : Type := list (nat * string).

Fixpoint capture (i : nat) (cs : captures) : option string :=
  match cs with
  | [] => None
  | (j, s) :: cs' => if Nat.eqb i j then Some s else capture i cs'
  end.

(** The first [n] characters of [s]. *)
Fixpoint prefix (n : nat) (s : string) : string :=
  match n, s with
  | S n', String c s' => String c (prefix n' s')
  | _, _ => EmptyString
  end.

(** [dropLit l s]: the rest of [s] after the literal [l], if [s] starts
    with it. *)
Fixpoint dropLit (l s : string) : option string :=
  match l, s with
  | EmptyString, _ => Some s
  | String a l', String b s' => if Ascii.eqb a b then dropLit l' s' else None
  | String _ _, EmptyString => None
  end.

(** Greedy [p+] with backtracking: take one more character if possible and
    try the continuation from the longest run downwards. *)
Fixpoint many1 {X} (p : ascii → bool) (pos : nat) (s : string)
    (k : nat → string → option X) : option X :=
  match s with
  | EmptyString => None
  | String c s' =>
      if p c then
        match many1 p (S pos) s' k with
        | Some x => Some x
        | None => k (S pos) s'
        end
      else None
  end.

(** Backtracking matcher in continuation-passing style.  [pos] is the
    index of [s] in the subject string (needed for [^]); the continuation
    receives the position and the rest after the match.  Alternatives are
    tried left to right, and the first overall success wins, like in the
    ECMAScript semantics. *)
Fixpoint exec (r : regex) (pos : nat) (s : string) (cs : captures)
    (k : nat → string → captures → option captures) : option captures :=
  match r with
  | Bos => if Nat.eqb pos 0 then k pos s cs else None
  | Eos => match s with EmptyString => k pos s cs | _ => None end
  | Lit l =>
      match dropLit l s with
      | Some s' => k (pos + String.length l) s' cs
      | None => None
      end
  | Cls p =>
      match s with
      | String c s' => if p c then k (S pos) s' cs else None
      | EmptyString => None
      end
  | Seq r1 r2 =>
      exec r1 pos s cs (fun pos' s' cs' => exec r2 pos' s' cs' k)
  | Alt r1 r2 =>
      match exec r1 pos s cs k with
      | Some x => Some x
      | None => exec r2 pos s cs k
      end
  | Opt r1 =>
      match exec r1 pos s cs k with
      | Some x => Some x
      | None => k pos s cs
      end
  | Rep n r1 =>
      (fix rep (n : nat) (pos : nat) (s : string) (cs : captures)
           {struct n} : option captures :=
         match n with
         | O => k pos s cs
         | S n' => exec r1 pos s cs (fun pos' s' cs' => rep n' pos' s' cs')
         end) n pos s cs
  | Many1 p => many1 p pos s (fun pos' s' => k pos' s' cs)
  | Group i r1 =>
      exec r1 pos s cs
        (fun pos' s' cs' => k pos' s' ((i, prefix (pos' - pos) s) :: cs'))
  end.

Definition accept : nat → string → captures → option captures :=
  fun _ _ cs => Some cs.

(** An unanchored search: the leftmost start position at which the
    pattern matches. *)
Fixpoint searchFrom (r : regex) (pos : nat) (s : string) : option captures :=
  match exec r pos s [] accept with
  | Some cs => Some cs
  | None =>
      match s with
      | EmptyString => None
      | String _ s' => searchFrom r (S pos) s'
      end
  end.

(** [s.match(r)] for a non-global [r]: the captures of the leftmost match,
    or [null]. *)
Definition matchRe (r : regex) (s : string) : option captures :=
  searchFrom r 0 s.

(** [r.test(s)] *)
Definition test (r : regex) (s : string) : bool :=
  match matchRe r s with Some _ => true | None => false end.

(** Character classes. *)
Definition isWordChar (c : ascii) : bool :=          (* \w *)
  inRange "a" "z" c || inRange "A" "Z" c || inRange "0" "9" c
  || Ascii.eqb c "_".
Definition isIdChar (c : ascii) : bool :=            (* [\w-] *)
  isWordChar c || Ascii.eqb c "-".
Definition isDot (c : ascii) : bool :=               (* . *)
  negb (Ascii.eqb c "010" || Ascii.eqb c "013").

End Regex.
Export Regex.

(* ===================================================================== *)
(** ** src/utils/summarization.util.ts *)
(* ===================================================================== *)

(** [/^(https?:\/\/)?(www\.)?(youtube\.com|youtu\.?be)\/.+/] *)
Definition ytRegex : regex :=
  Seq Bos
 (Seq (Opt (Group 1 (Seq (Lit "http") (Seq (Opt (Lit "s")) (Lit "://")))))
 (Seq (Opt (Group 2 (Lit "www.")))
 (Seq (Group 3 (Alt (Lit "youtube.com")
                    (Seq (Lit "youtu") (Seq (Opt (Lit ".")) (Lit "be")))))
 (Seq (Lit "/")
      (Many1 isDot))))).

Definition isValidYouTubeUrl (url : string) : bool := test ytRegex url.

(** [getApiKey(userApiKey?, defaultApiKey?)] *)
Definition getApiKey (userApiKey defaultApiKey : option string)
  : outcome string :=
  match userApiKey with
  | Some (String _ _ as k) => Value k
  | _ =>
      match defaultApiKey with
      | Some (String _ _ as k) => Value k
      | _ => Raise (BadRequestException "API key is required")
      end
  end.

(** The three patterns of [extractVideoId], in source order:
      [/(?:v=|\/)([\w-]{11})(?:\?|&|\/|$)/]
      [/youtu\.be\/([\w-]{11})(?:\?|&|$)/]
      [/\/shorts\/([\w-]{11})(?:\?|&|$)/] *)
Definition idGroup : regex := Group 1 (Rep 11 (Cls isIdChar)).

Definition pattern1 : regex :=
  Seq (Alt (Lit "v=") (Lit "/"))
 (Seq idGroup
      (Alt (Lit "?") (Alt (Lit "&") (Alt (Lit "/") Eos)))).

Definition pattern2 : regex :=
  Seq (Lit "youtu.be/")
 (Seq idGroup
      (Alt (Lit "?") (Alt (Lit "&") Eos))).

Definition pattern3 : regex :=
  Seq (Lit "/shorts/")
 (Seq idGroup
      (Alt (Lit "?") (Alt (Lit "&") Eos))).

Definition patterns : list regex := [pattern1; pattern2; pattern3].

(** The [for (const pattern of patterns)] loop: the first pattern that
    matches decides, and the result is its first capture group. *)
Fixpoint firstMatch (ps : list regex) (url : string) : option string :=
  match ps with
  | [] => None
  | p :: ps' =>
      match matchRe p url with
      | Some m => capture 1 m
      | None => firstMatch ps' url
      end
  end.

Definition extractVideoId (url : string) : option string :=
  firstMatch patterns url.

(* ===================================================================== *)
(** ** The [path] module of Node (POSIX flavour) *)
(* ===================================================================== *)

Module Path.

(** The scanning state of [path.extname]; [None] stands for [-1]. *)
Record scan : Type := Scan {
  startDot : option nat;
  startPart : nat;
  endAt : option nat;
  matchedSlash : bool;
  preDotState : Z
}.

Definition scan0 : scan := Scan None 0 None true 0.

(** The loop [for (i = path.length - 1; i >= 0; --i)] of [extname].  The
    argument is the part of the path still to visit, reversed: its head is
    [path[i]] and [i] is the length of its tail. *)
Fixpoint extLoop (rs : string) (st : scan) : scan :=
  match rs with
  | EmptyString => st
  | String c rs' =>
      let i := String.length rs' in
      if Ascii.eqb c "/" then
        if negb (matchedSlash st)
        then Scan (startDot st) (i + 1) (endAt st) (matchedSlash st)
                  (preDotState st)                        (* break *)
        else extLoop rs' st                               (* continue *)
      else
        let st1 :=
          match endAt st with
          | None => Scan (startDot st) (startPart st) (Some (i + 1)) false
                         (preDotState st)
          | Some _ => st
          end in
        let st2 :=
          if Ascii.eqb c "." then
            match startDot st1 with
            | None => Scan (Some i) (startPart st1) (endAt st1)
                           (matchedSlash st1) (preDotState st1)
            | Some _ =>
                if negb (preDotState st1 =? 1)%Z
                then Scan (startDot st1) (startPart st1) (endAt st1)
                          (matchedSlash st1) 1
                else st1
            end
          else
            match startDot st1 with
            | Some _ => Scan (startDot st1) (startPart st1) (endAt st1)
                             (matchedSlash st1) (-1)
            | None => st1
            end in
        extLoop rs' st2
  end.

(** [path.slice(a, b)] for [0 <= a <= b] *)
Definition sliceStr (a b : nat) (s : string) : string :=
  String.substring a (b - a) s.

(** [path.extname(p)] *)
Definition extname (p : string) : string :=
  let st := extLoop (String.rev p) scan0 in
  match startDot st, endAt st with
  | Some d, Some e =>
      if (preDotState st =? 0)%Z
         || ((preDotState st =? 1)%Z && Nat.eqb d (e - 1)
             && Nat.eqb d (startPart st + 1))
      then EmptyString
      else sliceStr d e p
  | _, _ => EmptyString
  end.

(** [path.join(dir, name)] for a directory without a trailing slash and a
    plain file name: no segment needs normalising. *)
Definition join (dir name : string) : string := dir +:+ "/" +:+ name.

End Path.

(* ===================================================================== *)
(** ** The world the service runs in *)
(* ===================================================================== *)

(** An uploaded file ([Express.Multer.File]); [buffer] holds the content,
    decoded as text. *)
Record File : Type := mkFile {
  originalname : string;
  mimetype : string;
  buffer : string
}.

(** The response of the chat completion service, as far as it is read:
    [response.choices[i].message.content], where [message] may be missing
    and [content] may be [null]. *)
Record ChatMessage : Type := mkMessage { content : option string }.
Record Choice : Type := mkChoice { message_ : option ChatMessage }.
Record ChatCompletion : Type := mkCompletion { choices : list Choice }.

(** What happened so far: the calls to external services, and the entries
    into [summarizeText] (with the text handed to it). *)
Inductive event : Type :=
| FetchTranscript (videoId : string)
| Download (url output : string)
| Transcribe (apiKey audioPath : string)
| Complete (apiKey prompt : string)
| ParsePdf (name : string)
| ParseDocx (name : string)
| SummarizeText (text : string).

(** Objects live in a heap and are used through references (indices). *)
Abbreviation object := (gmap string val).

Record World : Type := mkWorld {
  heap : list object;       (* the objects allocated so far *)
  files : list string;      (* the paths of the files that exist *)
  trace : list event        (* oldest event first *)
}.

(** The collaborators of the service.  Each may answer differently as time
    passes, so it sees the trace; only the download tool writes files. *)
Record Providers : Type := mkProviders {
  (* process.env.OPENAI_API_KEY *)
  OPENAI_API_KEY : option string;
  (* process.cwd() *)
  cwd : string;
  (* YoutubeTranscript.fetchTranscript(videoId): the [text] of each item *)
  fetchTranscript : list event → string → outcome (list string);
  (* the yt-dlp binary: url, output path, files before; files after *)
  ytdlp : list event → string → string → list string
          → outcome unit * list string;
  (* openaiClient.audio.transcriptions.create(...).text *)
  transcriptionsCreate : list event → string → string → outcome string;
  (* openaiClient.chat.completions.create(...) *)
  completionsCreate : list event → string → string → outcome ChatCompletion;
  (* extractTextFromPdf, extractTextFromDocx of src/utils/files.util *)
  extractTextFromPdf : list event → File → outcome string;
  extractTextFromDocx : list event → File → outcome string;
  (* generateRandomSuffix() *)
  generateRandomSuffix : list event → string
}.

(** The members of the option enums that serve as defaults; their
    declarations (enums/summarization-options.enum.ts) are taken as
    parameters. *)
Record Enums : Type := mkEnums {
  SummaryLength_STANDARD : val;
  SummaryFormat_NARRATIVE : val;
  SummarizationModel_OPENAI : val;
  SummarizationSpeed_SLOW : val
}.

(** Computations: they read and change the world and end in a value or in
    an exception. *)
Definition M (A : Type) : Type := World → outcome A * World.

Global Instance M_ret : MRet M := λ A a w, (Value a, w).
Global Instance M_bind : MBind M := λ A B f m w,
  match m w with
  | (Value a, w') => f a w'
  | (Raise e, w') => (Raise e, w')
  end.

Definition throw {A} (e : exn) : M A := λ w, (Raise e, w).

Definition lift {A} (o : outcome A) : M A := λ w, (o, w).

(** [try { body } catch (error) { handler }] *)
Definition tryCatch {A} (body : M A) (handler : exn → M A) : M A := λ w,
  match body w with
  | (Raise e, w') => handler e w'
  | r => r
  end.

Definition emit (e : event) : M unit := λ w,
  (Value (), mkWorld (heap w) (files w) (trace w ++ [e])).

(** A call to an external service: it is recorded, then answered. *)
Definition external {A} (e : event) (answer : list event → outcome A) : M A :=
  λ w, (answer (trace w), mkWorld (heap w) (files w) (trace w ++ [e])).

(** [{ ... }]: a fresh object. *)
Definition alloc (o : object) : M nat := λ w,
  (Value (length (heap w)), mkWorld (heap w ++ [o]) (files w) (trace w)).

(** [o.k] for [o] possibly [undefined]. *)
Definition getProp (o : option nat) (k : string) : M val := λ w,
  match o with
  | None => (Raise (TypeError "Cannot read properties of undefined"), w)
  | Some l => (Value (default VUndefined (heap w !! l ≫= (.!! k))), w)
  end.

(** [o?.k] *)
Definition optProp (o : option nat) (k : string) : M val :=
  match o with
  | None => mret VUndefined
  | Some _ => getProp o k
  end.

(* ===================================================================== *)
(** ** Option and credential resolution, temporary files *)
(* ===================================================================== *)

Section Utilities.

Context (E : Enums).

(** [getSummarizationOptions(options?)] of
    src/utils/summarization.util.ts: three fields. *)
Definition getSummarizationOptions (options : option nat) : M nat :=
  len ← optProp options "length";
  fmt ← optProp options "format";
  lis ← optProp options "listen";
  alloc (<["length" := coalesce len (SummaryLength_STANDARD E)]>
        (<["format" := coalesce fmt (SummaryFormat_NARRATIVE E)]>
        (<["listen" := coalesce lis (VBool false)]> ∅))).

(** The later revision of the same function (the unnamed source file):
    five fields. *)
Definition getSummarizationOptions5 (options : option nat) : M nat :=
  len ← optProp options "length";
  fmt ← optProp options "format";
  lis ← optProp options "listen";
  mdl ← optProp options "model";
  spd ← optProp options "speed";
  alloc (<["length" := coalesce len (SummaryLength_STANDARD E)]>
        (<["format" := coalesce fmt (SummaryFormat_NARRATIVE E)]>
        (<["listen" := coalesce lis (VBool false)]>
        (<["model" := coalesce mdl (SummarizationModel_OPENAI E)]>
        (<["speed" := coalesce spd (SummarizationSpeed_SLOW E)]> ∅))))).

End Utilities.

(** Does [s] contain a slash? *)
Fixpoint hasSlash (s : string) : bool :=
  match s with
  | EmptyString => false
  | String c s' => Ascii.eqb c "/" || hasSlash s'
  end.

(** The part of [p] after its last slash. *)
Fixpoint afterLastSlash (p : string) : string :=
  match p with
  | EmptyString => EmptyString
  | String c p' =>
      if hasSlash p'
      then afterLastSlash p'
      else if Ascii.eqb c "/" then p' else p
  end.

(** Modelled from the spec: [extractPrefixFromPath] is imported by the
    service but its definition is not part of the sources.  The audio path is
    the download directory joined with the generated prefix and the audio
    extension, and the function gives the generated prefix back: the file
    name without its directory and extension. *)
Definition extractPrefixFromPath (audioPath : string) : string :=
  let name := afterLastSlash audioPath in
  Regex.prefix (String.length name - String.length (Path.extname name)) name.

(** Is [path] a file directly in directory [dir] whose name starts with
    [pre]? *)
Definition inDirWithPrefix (dir pre path : string) : bool :=
  match dropLit (dir +:+ "/") path with
  | Some name => negb (hasSlash name) && startsWith pre name
  | None => false
  end.

(** Modelled from the spec: [cleanupFiles] is imported by the service but
    its definition is not part of the sources.  It deletes every file in the
    given directory whose name starts with the given prefix. *)
Definition cleanupFiles (dir pre : string) : M unit := λ w,
  (Value (),
   mkWorld (heap w)
           (filter (λ p, inDirWithPrefix dir pre p = false) (files w))
           (trace w)).

(** [existsSync(path)] *)
Definition existsSync (path : string) : M bool := λ w,
  (Value (bool_decide (path ∈ files w)), w).

(* ===================================================================== *)
(** ** src/summarization/summarization.service.ts *)
(* ===================================================================== *)

(** The result of [summarizeYouTubeVideo]: [{ transcript, summary }]. *)
Record VideoSummary : Type := mkVideoSummary {
  transcript : string;
  summary : string
}.

(** What a [try] block of an [async] function hands to its caller when it
    executes [return e]: a value (also after [await]), or a promise that was
    returned without being awaited.  Such a promise leaves the [try] block
    unsettled: when it is rejected later, no [catch] of the function that
    returned it is running any more. *)
Inductive returned (A : Type) : Type :=
| Now (a : A)
| Later (p : outcome A).
Global Arguments Now {A} a.
Global Arguments Later {A} p.

(** [return f(...)] for an asynchronous [f], without [await]: the effects of
    the call take place, its outcome travels inside the promise. *)
Definition returnPromise {A} (call : M A) : M (returned A) := λ w,
  let (o, w') := call w in (Value (Later o), w').

(** The promise of the [async] function itself: it adopts a returned
    promise. *)
Definition settle {A} (body : M (returned A)) : M A := λ w,
  match body w with
  | (Value (Now a), w') => (Value a, w')
  | (Value (Later p), w') => (p, w')
  | (Raise e, w') => (Raise e, w')
  end.

Inductive Parser : Type := PlainText | Pdf | Docx.

(** The [switch (ext)] of [extractTextFromFile]. *)
Definition parserFor (ext : string) : option Parser :=
  if String.eqb ext ".txt" then Some PlainText
  else if String.eqb ext ".pdf" then Some Pdf
  else if String.eqb ext ".docx" then Some Docx
  else None.

Section Service.

Context (E : Enums) (P : Providers).

Definition defaultApiKey : option string := OPENAI_API_KEY P.
Definition DOWNLOAD_DIR : string := Path.join (cwd P) "downloads".
Definition AUDIO_FORMAT : string := "mp3".
Definition MAX_TOKENS : Z := 15000.

(** [Math.floor(this.MAX_TOKENS / 4)] *)
Definition safeLength : nat := Z.to_nat (MAX_TOKENS / 4).

(** The body of the [try] block of [fetchYouTubeTranscript], after the
    transcript items arrived: first the full transcript, then its
    truncation. *)
Definition fullTranscript (transcriptItems : list string) : string :=
  Js.join " "
    (filter (λ text, String.length text ≠ 0)
            (map trim transcriptItems)).

Definition joinTranscript (transcriptItems : list string) : string :=
  let words := split " " (fullTranscript transcriptItems) in
  Js.join " " (slice0 safeLength words).

Definition fetchYouTubeTranscript (videoId : string) : M string :=
  tryCatch
    (transcriptItems ← external (FetchTranscript videoId)
                         (λ t, fetchTranscript P t videoId);
     mret (joinTranscript transcriptItems))
    (λ error,
       throw (Error ("Could not fetch transcript from YouTube: "
                     +:+ message error))).

Definition downloadAudio (videoUrl : string) : M string := λ w0,
  let pre := generateRandomSuffix P (trace w0) in
  let audioPath := Path.join DOWNLOAD_DIR (pre +:+ "." +:+ AUDIO_FORMAT) in
  tryCatch
    (_ ← (λ w, let (o, fs) := ytdlp P (trace w) videoUrl audioPath (files w) in
               (o, mkWorld (heap w) fs
                           (trace w ++ [Download videoUrl audioPath])));
     found ← existsSync audioPath;
     if negb found then throw (Error "Audio file was not created.")
     else mret audioPath)
    (λ error, throw (Error "Failed to download audio"))
    w0.

Definition transcribeAudio (audioPath : string)
    (userApiKey : option string) : M string :=
  apiKey ← lift (getApiKey userApiKey defaultApiKey);
  tryCatch
    (external (Transcribe apiKey audioPath)
              (λ t, transcriptionsCreate P t apiKey audioPath))
    (λ error,
       throw (Error ("Failed to transcribe audio: " +:+ message error))).

(** [response.choices[0]?.message?.content] *)
Definition firstContent (response : ChatCompletion) : option string :=
  match choices response with
  | [] => None
  | c :: _ =>
      match message_ c with
      | None => None
      | Some m => content m
      end
  end.

Definition newline : string := String "010" EmptyString.

Definition summarizeText (text : string) (options : option nat)
    (userApiKey : option string) : M string :=
  _ ← emit (SummarizeText text);
  apiKey ← lift (getApiKey userApiKey defaultApiKey);
  tryCatch
    (o ← getSummarizationOptions E options;
     len ← getProp (Some o) "length";
     fmt ← getProp (Some o) "format";
     lis ← getProp (Some o) "listen";
     let prompt :=
       "Summarize the following text in a " +:+ toString len
       +:+ " format, in " +:+ toString fmt +:+ " style:"
       +:+ newline +:+ newline +:+ text in
     response ← external (Complete apiKey prompt)
                  (λ t, completionsCreate P t apiKey prompt);
     mret (match firstContent response with
           | Some (String _ _ as c) => c
           | _ => "Could not generate a summary."
           end))
    (λ error,
       throw (Error ("Failed to summarize text: " +:+ message error))).

Definition summarizeYouTubeVideoUsingAudio (videoUrl : string)
    (options : option nat) (userApiKey : option string) : M VideoSummary :=
  tryCatch
    (audioPath ← downloadAudio videoUrl;
     transcript ← transcribeAudio audioPath userApiKey;
     summary ← summarizeText transcript options userApiKey;
     let pre := extractPrefixFromPath audioPath in
     _ ← cleanupFiles DOWNLOAD_DIR pre;
     mret (mkVideoSummary transcript summary))
    (λ error,
       throw (Error ("Failed to summarize video using audio: "
                     +:+ message error))).

Definition summarizeYouTubeVideo (videoUrl : string)
    (optionsDto : option nat) (userApiKey : option string)
  : M VideoSummary :=
  if negb (isValidYouTubeUrl videoUrl)
  then throw (BadRequestException "Invalid YouTube URL")
  else
    options ← getSummarizationOptions E optionsDto;
    settle
      (tryCatch
         (tryCatch
            (let videoId := extractVideoId videoUrl in
             if negb (truthy videoId) then
               returnPromise
                 (summarizeYouTubeVideoUsingAudio videoUrl (Some options)
                    userApiKey)
             else
               transcript ← fetchYouTubeTranscript (default "" videoId);
               summary ← summarizeText transcript (Some options) userApiKey;
               mret (Now (mkVideoSummary transcript summary)))
            (λ transcriptError,
               returnPromise
                 (summarizeYouTubeVideoUsingAudio videoUrl (Some options)
                    userApiKey)))
         (λ error, throw (BadRequestException (message error)))).

Definition extractTextFromFile (file : File) : M string :=
  let ext := toLowerCase (Path.extname (originalname file)) in
  match parserFor ext with
  | Some PlainText => mret (buffer file)
  | Some Pdf =>
      external (ParsePdf (originalname file))
               (λ t, extractTextFromPdf P t file)
  | Some Docx =>
      external (ParseDocx (originalname file))
               (λ t, extractTextFromDocx P t file)
  | None =>
      throw (UnsupportedMediaTypeException
               "Unsupported file format. Only PDF, TXT, and DOCX are allowed.")
  end.

Definition summarizeFile (file : File) (optionsDto : option nat)
    (userApiKey : option string) : M string :=
  options ← getSummarizationOptions E optionsDto;
  text ← extractTextFromFile file;
  if negb (truthy (Some (trim text)))
  then throw (BadRequestException "Could not extract text from the file.")
  else summarizeText text (Some options) userApiKey.

End Service.

(* ===================================================================== *)
(** ** Concrete worlds used in examples *)
(* ===================================================================== *)

Module Examples.

Definition enums : Enums :=
  mkEnums (VStr "standard") (VStr "narrative") (VStr "openai") (VStr "slow").

Definition emptyWorld : World := mkWorld [] [] [].

Definition reply (text : option string) : ChatCompletion :=
  mkCompletion [mkChoice (Some (mkMessage text))].

(** Everything works; captions exist and read [captions]. *)
Definition healthy (captions : list string) : Providers :=
  mkProviders (Some "sk-default") "/app"
    (λ _ _, Value captions)
    (λ _ _ out fs, (Value (), out :: (out +:+ ".part") :: fs))
    (λ _ _ _, Value "spoken words")
    (λ _ _ _, Value (reply (Some "a summary")))
    (λ _ _, Value "pdf text")
    (λ _ _, Value "docx text")
    (λ _, "k3x9").

(** No captions, the download works, the speech-to-text service fails. *)
Definition whisperDown : Providers :=
  mkProviders (Some "sk-default") "/app"
    (λ _ _, Raise (ProviderError "Transcript is disabled on this video"))
    (λ _ _ out fs, (Value (), out :: fs))
    (λ _ _ _, Raise (ProviderError "503 Service Unavailable"))
    (λ _ _ _, Value (reply (Some "a summary")))
    (λ _ _, Value "pdf text")
    (λ _ _, Value "docx text")
    (λ _, "k3x9").

(** No captions, and the download tool fails. *)
Definition downloadDown : Providers :=
  mkProviders (Some "sk-default") "/app"
    (λ _ _, Raise (ProviderError "Transcript is disabled on this video"))
    (λ _ _ _ fs, (Raise (ProviderError "yt-dlp exited with code 1"), fs))
    (λ _ _ _, Value "spoken words")
    (λ _ _ _, Value (reply (Some "a summary")))
    (λ _ _, Value "pdf text")
    (λ _ _, Value "docx text")
    (λ _, "k3x9").

(** The completion service answers with the given content. *)
Definition answering (text : option string) : Providers :=
  mkProviders None "/app"
    (λ _ _, Value [])
    (λ _ _ out fs, (Value (), out :: fs))
    (λ _ _ _, Value "spoken words")
    (λ _ _ _, Value (reply text))
    (λ _ _, Value "pdf text")
    (λ _ _, Value "docx text")
    (λ _, "k3x9").

End Examples.

(** The texts handed to [summarizeText], in order. *)
Fixpoint summarized (t : list event) : list string :=
  match t with
  | [] => []
  | SummarizeText text :: t' => text :: summarized t'
  | _ :: t' => summarized t'
  end.

(* ===================================================================== *)
(** ** Vocabulary of the statements *)
(* ===================================================================== *)

(** The host of a URL: what stands between the optional scheme and the
    first slash after it. *)
Fixpoint uptoSlash (s : string) : string :=
  match s with
  | EmptyString => EmptyString
  | String c s' => if Ascii.eqb c "/" then EmptyString else String c (uptoSlash s')
  end.

Definition hostOf (url : string) : string :=
  match dropLit "https://" url with
  | Some rest => uptoSlash rest
  | None =>
      match dropLit "http://" url with
      | Some rest => uptoSlash rest
      | None => uptoSlash url
      end
  end.

Definition canonicalHosts : list string :=
  ["youtube.com"; "www.youtube.com"; "youtu.be"; "www.youtu.be"].

(** What [options?.k] reads in world [w]. *)
Definition peek (w : World) (options : option nat) (k : string) : val :=
  match options with
  | None => VUndefined
  | Some l => default VUndefined (heap w !! l ≫= (.!! k))
  end.

(** The property [k] of the options object the caller gave, when there is
    an object and it has the property. *)
Definition userValue (w : World) (options : option nat) (k : string)
  : option val :=
  l ← options; x ← heap w !! l; x !! k.

(** What it means for [resolve] to resolve the option fields [fields]
    (names with their defaults), for every input [options] in every world:
    - it returns (it never throws) a reference to a fresh object [o];
    - nothing else changes: the objects that existed, the input among them,
      are where and what they were, and so are the files and the trace;
    - every field of [o] holds the user's value when that is present (a
      boolean or a string: not missing, [undefined] or [null]) and the
      default otherwise, and [o] has no other property;
    - resolving the resolved options again yields an object with the same
      content. *)
Definition resolves (resolve : option nat → M nat)
    (fields : list (string * val)) : Prop :=
  ∀ (options : option nat) (w : World), ∃ o : object,
    let l := length (heap w) in
    let w' := mkWorld (heap w ++ [o]) (files w) (trace w) in
    resolve options w = (Value l, w')
    ∧ (∀ i x, heap w !! i = Some x → heap w' !! i = Some x)
    ∧ heap w' !! l = Some o
    ∧ (∀ k d, (k, d) ∈ fields →
         match userValue w options k with
         | Some (VBool b) => o !! k = Some (VBool b)
         | Some (VStr s) => o !! k = Some (VStr s)
         | Some VNull | Some VUndefined | None => o !! k = Some d
         end)
    ∧ dom o = list_to_set fields.*1
    ∧ resolve (Some l) w'
      = (Value (S l), mkWorld (heap w ++ [o; o]) (files w) (trace w)).

(** A partial options object: a length, [null] for the format, [false] for
    the listen flag, and nothing for the model and the speed. *)
Definition partialOptions : object :=
  <["length" := VStr "short"]>
    (<["format" := VNull]> (<["listen" := VBool false]> ∅)).


(** Shapes of file names. *)
Fixpoint allChars (p : ascii → bool) (s : string) : bool :=
  match s with
  | EmptyString => true
  | String c s' => p c && allChars p s'
  end.

Definition plainChar (c : ascii) : bool :=
  negb (Ascii.eqb c "." || Ascii.eqb c "/").

(** An extension: a dot followed by one or more characters other than dots
    and slashes. *)
Definition isExtension (e : string) : bool :=
  match e with
  | String d (String c body) =>
      Ascii.eqb d "." && plainChar c && allChars plainChar body
  | _ => false
  end.

Fixpoint lastChar (s : string) : option ascii :=
  match s with
  | EmptyString => None
  | String c EmptyString => Some c
  | String _ s' => lastChar s'
  end.

(** A stem: a non-empty string that does not end in a slash. *)
Definition isStem (s : string) : bool :=
  match lastChar s with
  | Some c => negb (Ascii.eqb c "/")
  | None => false
  end.

(** The parser [extractTextFromFile] selects for a file of the given name
    ([None]: the file is rejected as unsupported). *)
Definition route (name : string) : option Parser :=
  parserFor (toLowerCase (Path.extname name)).








(** A state of the [extname] scan in which the dot is found and something
    stands before it; once reached, it stays so. *)
Definition dotted (d e : nat) (st : Path.scan) : Prop :=
  Path.startDot st = Some d ∧ Path.endAt st = Some e
  ∧ (Path.preDotState st = 1%Z ∨ Path.preDotState st = (-1)%Z).


(** An identifier: eleven characters of [[\w-]]. *)
Definition isId (s : string) : bool :=
  Nat.eqb (String.length s) 11 && allChars isIdChar s.

(** [takeN p n s]: the rest of [s] after [n] characters that all satisfy
    [p], if [s] starts with such a run. *)
Fixpoint takeN (p : ascii → bool) (n : nat) (s : string) : option string :=
  match n with
  | O => Some s
  | S n' =>
      match s with
      | String c s' => if p c then takeN p n' s' else None
      | EmptyString => None
      end
  end.

(** The end of the subject, or one of the characters [ends]. *)
Definition endsWith (ends : list ascii) (s : string) : bool :=
  match s with
  | EmptyString => true
  | String c _ => existsb (Ascii.eqb c) ends
  end.

(** What the three patterns do at one position, read as a function: try the
    literal openings in order; after an opening, eleven identifier
    characters must follow, and then the end or one of [ends]. *)
Fixpoint matchAt (lits : list string) (ends : list ascii) (s : string)
  : option string :=
  match lits with
  | [] => None
  | l :: lits' =>
      match
        match dropLit l s with
        | Some s1 =>
            match takeN isIdChar 11 s1 with
            | Some rest =>
                if endsWith ends rest then Some (Regex.prefix 11 s1) else None
            | None => None
            end
        | None => None
        end
      with
      | Some id => Some id
      | None => matchAt lits' ends s
      end
  end.

(** The canonical pattern family in the words of the specification: an
    identifier that follows [v=].  It is the first pattern without its
    alternative [\/]. *)
Definition canonicalPattern : regex :=
  Seq (Lit "v=")
 (Seq idGroup
      (Alt (Lit "?") (Alt (Lit "&") (Alt (Lit "/") Eos)))).

Definition canonicalId (url : string) : option string :=
  matchRe canonicalPattern url ≫= capture 1.

(** The characters that may follow an identifier: in the first pattern,
    and in the second and third. *)
Definition ends1 : list ascii := ["?"%char; "&"%char; "/"%char].
Definition ends2 : list ascii := ["?"%char; "&"%char].

(* ===================================================================== *)
(** ** Video metadata (the later revision of the utilities) *)
(* ===================================================================== *)

(** Truthiness of a value, and [v || d]. *)
Definition truthyVal (v : val) : bool :=
  match v with
  | VBool true => true
  | VStr (String _ _) => true
  | _ => false
  end.

Definition orElse (v d : val) : val := if truthyVal v then v else d.

Global Instance outcome_ret : MRet outcome := λ A a, Value a.
Global Instance outcome_bind : MBind outcome := λ A B f o,
  match o with
  | Value a => f a
  | Raise e => Raise e
  end.

(** The response of [fetch]: [response.json()] gives the parsed body, an
    object or [null] ([None]), or rejects.  The properties of the body that
    are read hold strings, booleans or [null], or are missing. *)
Record Response : Type := mkResponse {
  json : outcome (option object)
}.

(** [data.k], which throws when [data] is [null]. *)
Definition dataProp (data : option object) (k : string) : outcome val :=
  match data with
  | None => Raise (TypeError "Cannot read properties of null")
  | Some o => Value (default VUndefined (o !! k))
  end.

(** [{ thumbnail, title, channelName }] *)
Record VideoMetadata : Type := mkMetadata {
  thumbnail : val;
  title : val;
  channelName : val
}.

Definition emptyResult : VideoMetadata := mkMetadata VNull VNull VNull.

Definition oEmbedUrl (videoId : string) : string :=
  "https://www.youtube.com/oembed?url=https://www.youtube.com/watch?v="
  +:+ videoId +:+ "&format=json".

(** [extractYouTubeVideoMetadata(url)]; [fetch] is the global function of
    that name. *)
Definition extractYouTubeVideoMetadata (fetch : string → outcome Response)
    (url : string) : outcome VideoMetadata :=
  match
    (let videoId := extractVideoId url in
     if negb (truthy videoId) then Value emptyResult
     else
       let id := default "" videoId in
       response ← fetch (oEmbedUrl id);
       if negb (truthy videoId) then Value emptyResult
       else
         data ← json response;
         title0 ← dataProp data "title";
         let title := orElse title0 (VStr "Unknown Title") in
         author ← dataProp data "author_name";
         let channelName := orElse author (VStr "Unknown Channel") in
         let thumbnail :=
           "https://img.youtube.com/vi/" +:+ id +:+ "/hqdefault.jpg" in
         Value (mkMetadata (VStr thumbnail) title channelName))
  with
  | Value r => Value r
  | Raise error => Value emptyResult                       (* catch *)
  end.

(** The same function with its calls to [fetch] on record: a computation
    takes the list of the URLs requested so far and returns it with its own
    requests added.  The network may answer differently each time: [answer]
    sees the requests made before. *)
Module Net.

Definition Net (A : Type) : Type := list string → outcome A * list string.

Global Instance Net_ret : MRet Net := λ A a log, (Value a, log).
Global Instance Net_bind : MBind Net := λ A B f m log,
  match m log with
  | (Value a, log') => f a log'
  | (Raise e, log') => (Raise e, log')
  end.

(** A step that makes no request. *)
Definition lift {A} (o : outcome A) : Net A := λ log, (o, log).

(** [try { body } catch (error) { handler }] *)
Definition tryCatch {A} (body : Net A) (handler : exn → Net A) : Net A :=
  λ log,
    match body log with
    | (Raise e, log') => handler e log'
    | r => r
    end.

(** [await fetch(url)]: the request is recorded, then answered. *)
Definition fetch (answer : list string → string → outcome Response)
    (url : string) : Net Response :=
  λ log, (answer log url, log ++ [url]).

(** [extractYouTubeVideoMetadata(url)] *)
Definition extractYouTubeVideoMetadata
    (answer : list string → string → outcome Response) (url : string)
  : Net VideoMetadata :=
  tryCatch
    (let videoId := extractVideoId url in
     if negb (truthy videoId) then mret emptyResult
     else
       let id := default "" videoId in
       response ← fetch answer (oEmbedUrl id);
       if negb (truthy videoId) then mret emptyResult
       else
         data ← lift (json response);
         title0 ← lift (dataProp data "title");
         let title := orElse title0 (VStr "Unknown Title") in
         author ← lift (dataProp data "author_name");
         let channelName := orElse author (VStr "Unknown Channel") in
         let thumbnail :=
           "https://img.youtube.com/vi/" +:+ id +:+ "/hqdefault.jpg" in
         mret (mkMetadata (VStr thumbnail) title channelName))
    (λ error, mret emptyResult).

End Net.

(* ===================================================================== *)
(** ** Vocabulary of the further statements *)
(* ===================================================================== *)

(** The calls to the external services in a trace: the identifiers whose
    transcript was fetched, the downloads, the transcriptions and the
    prompts completed. *)
Fixpoint fetched (t : list event) : list string :=
  match t with
  | [] => []
  | FetchTranscript videoId :: t' => videoId :: fetched t'
  | _ :: t' => fetched t'
  end.

Fixpoint downloaded (t : list event) : list (string * string) :=
  match t with
  | [] => []
  | Download url output :: t' => (url, output) :: downloaded t'
  | _ :: t' => downloaded t'
  end.

Fixpoint transcribed (t : list event) : list string :=
  match t with
  | [] => []
  | Transcribe _ audioPath :: t' => audioPath :: transcribed t'
  | _ :: t' => transcribed t'
  end.

Fixpoint completed (t : list event) : list string :=
  match t with
  | [] => []
  | Complete _ prompt :: t' => prompt :: completed t'
  | _ :: t' => completed t'
  end.

Fixpoint parsed (t : list event) : list string :=
  match t with
  | [] => []
  | ParsePdf name :: t' => name :: parsed t'
  | ParseDocx name :: t' => name :: parsed t'
  | _ :: t' => parsed t'
  end.

(** The prompt [summarizeText] builds from the resolved length and format
    and the text. *)
Definition promptFor (len fmt : val) (text : string) : string :=
  "Summarize the following text in a " +:+ toString len
  +:+ " format, in " +:+ toString fmt +:+ " style:"
  +:+ newline +:+ newline +:+ text.

(** The path [downloadAudio] writes to in world [w]. *)
Definition audioPathIn (P : Providers) (w : World) : string :=
  Path.join (DOWNLOAD_DIR P)
    (generateRandomSuffix P (trace w) +:+ "." +:+ AUDIO_FORMAT).

(** The direct branch of [summarizeYouTubeVideo], as it stands in the inner
    [try] block for a URL with identifier [videoId]: fetch the transcript,
    summarize it. *)
Definition directBranch (E : Enums) (P : Providers) (videoId : string)
    (options : option nat) (userApiKey : option string) : M VideoSummary :=
  transcript ← fetchYouTubeTranscript P videoId;
  summary ← summarizeText E P transcript options userApiKey;
  mret (mkVideoSummary transcript summary).

(** The world after [getSummarizationOptions] allocated its result [o]. *)
Definition withObject (w : World) (o : object) : World :=
  mkWorld (heap w ++ [o]) (files w) (trace w).

(** The shape of the URLs [isValidYouTubeUrl] accepts: an optional scheme,
    an optional [www.], one of three host spellings, a slash, and at least
    one more character that is not a line terminator. *)
Definition schemes : list string := [""; "http://"; "https://"].
Definition wwws : list string := [""; "www."].
Definition hostSpellings : list string := ["youtube.com"; "youtu.be"; "youtube"].

Definition validShape (url : string) : Prop :=
  ∃ scheme www host c rest,
    scheme ∈ schemes ∧ www ∈ wwws ∧ host ∈ hostSpellings
    ∧ isDot c = true
    ∧ url = scheme +:+ www +:+ host +:+ "/" +:+ String c rest.

(** The hosts of the accepted URLs. *)
Definition acceptedHosts : list string :=
  ["youtube.com"; "youtu.be"; "youtube";
   "www.youtube.com"; "www.youtu.be"; "www.youtube"].

(** What a pattern can match, read declaratively: [lang r s s'] says that
    [r] can match a prefix of [s] that leaves [s'] (positions and captures
    are left out; [^] is taken as matching the empty string). *)
Fixpoint lang (r : regex) (s s' : string) : Prop :=
  match r with
  | Bos => s' = s
  | Eos => s = "" ∧ s' = ""
  | Lit l => s = l +:+ s'
  | Cls p => ∃ c, p c = true ∧ s = String c s'
  | Seq r1 r2 => ∃ mid, lang r1 s mid ∧ lang r2 mid s'
  | Alt r1 r2 => lang r1 s s' ∨ lang r2 s s'
  | Opt r1 => lang r1 s s' ∨ s' = s
  | Rep n r1 =>
      (fix rep (n : nat) (s : string) : Prop :=
         match n with
         | O => s' = s
         | S n' => ∃ mid, lang r1 s mid ∧ rep n' mid
         end) n s
  | Many1 p =>
      ∃ c run, p c = true ∧ allChars p run = true ∧ s = String c run +:+ s'
  | Group _ r1 => lang r1 s s'
  end.

(** The usual openings of a video URL, up to the identifier: the watch
    page, the short link, the shorts page and the embed page, with or
    without scheme and [www.]. *)
Definition videoPaths : list string :=
  ["youtube.com/watch?v="; "youtu.be/"; "youtube.com/shorts/";
   "youtube.com/embed/"].

Definition videoOpening (pre : string) : Prop :=
  ∃ scheme www path,
    scheme ∈ schemes ∧ www ∈ wwws ∧ path ∈ videoPaths
    ∧ pre = scheme +:+ www +:+ path.

(** An identifier in a URL, as the first pattern sees one: after [v=] or a
    slash, and followed by the end of the URL or by [?], [&] or a slash. *)
Definition hasIdAt (url a id : string) : Prop :=
  ∃ l rest, l ∈ ["v="; "/"] ∧ isId id = true ∧ endsWith ends1 rest = true
            ∧ url = a +:+ l +:+ id +:+ rest.
(* ===================================================================== *)
(** * Properties *)
(* ===================================================================== *)

(** ** Credential resolution *)

(** C6: [getApiKey userKey defaultKey] returns [userKey] when it is
    non-empty; otherwise [defaultKey] when that is non-empty; otherwise it
    fails with the missing-credential error (a [BadRequestException] saying
    that an API key is required); and it fails in exactly that case. *)
Theorem getApiKey_resolution (userKey defaultKey : option string) :
  (∀ k, userKey = Some k → k ≠ "" → getApiKey userKey defaultKey = Value k)
  ∧ (∀ k, truthy userKey = false → defaultKey = Some k → k ≠ "" →
          getApiKey userKey defaultKey = Value k)
  ∧ (truthy userKey = false → truthy defaultKey = false →
       getApiKey userKey defaultKey
       = Raise (BadRequestException "API key is required"))
  ∧ ((∃ e, getApiKey userKey defaultKey = Raise e)
     ↔ truthy userKey = false ∧ truthy defaultKey = false).
Proof.
  split; [| split; [| split; [| split]]].
  - intros k -> Hk. destruct k; [done | reflexivity].
  - intros k Hu -> Hk. destruct k; [done |].
    destruct userKey as [[|]|]; simpl in *; done.
  - intros Hu Hd.
    destruct userKey as [[|]|], defaultKey as [[|]|]; simpl in *; done.
  - intros [e He].
    destruct userKey as [[|]|], defaultKey as [[|]|]; simpl in *; done.
  - intros [Hu Hd].
    destruct userKey as [[|]|], defaultKey as [[|]|]; simpl in *;
      try done; eauto.
Qed.

(** ** URL validation *)

Lemma many1_accept {X} p pos c s (k : nat → string → option X) :
  p c = true →
  (∀ pos' s', is_Some (k pos' s')) →
  is_Some (many1 p pos (String c s) k).
Proof.
  intros Hc Hk. simpl. rewrite Hc.
  destruct (many1 p (S pos) s k); [eauto | apply Hk].
Qed.

(** C9: [isValidYouTubeUrl] accepts strings whose host is none of the
    four canonical spellings.  The dot of the short domain is optional in the
    pattern, so the host [youtube] without a top-level domain passes:
    [https://youtube/abc] is accepted, and so is every URL that continues
    [https://youtube/a]. *)
Theorem isValidYouTubeUrl_accepts_host_without_tld :
  isValidYouTubeUrl "https://youtube/abc" = true
  ∧ hostOf "https://youtube/abc" = "youtube"
  ∧ (hostOf "https://youtube/abc" ∉ canonicalHosts)
  ∧ (∀ rest, isValidYouTubeUrl ("https://youtube/a" +:+ rest) = true
             ∧ hostOf ("https://youtube/a" +:+ rest) = "youtube").
Proof.
  split; [reflexivity |]. split; [reflexivity |]. split.
  - cbv [canonicalHosts]. rewrite !elem_of_cons, elem_of_nil.
    intros [H | [H | [H | [H | []]]]]; discriminate H.
  - intros rest. split; [| reflexivity].
    unfold isValidYouTubeUrl, test, matchRe.
    cbv -[many1 isDot].
    match goal with
    | |- context [many1 ?p ?n (String ?c ?s) ?k] =>
        destruct (many1_accept p n c s k) as [x ->]; [reflexivity | eauto |]
    end.
    reflexivity.
Qed.

(** ** Summarization *)

(** Unfolds the plumbing of computations. *)
Ltac run :=
  cbv [mbind M_bind mret M_ret emit lift tryCatch optProp getProp alloc
       external throw existsSync settle returnPromise cleanupFiles].

(** C10: when the completion service answers and the content of its
    first choice is the empty string or is absent (no choice, no message, or
    a [null] content), [summarizeText] returns the fixed placeholder, not the
    empty string: the check is a test for falsiness. *)
Theorem summarizeText_placeholder E P text options userKey key response w :
  getApiKey userKey (OPENAI_API_KEY P) = Value key →
  (∀ t prompt, completionsCreate P t key prompt = Value response) →
  truthy (firstContent response) = false →
  (summarizeText E P text options userKey w).1
  = Value "Could not generate a summary.".
Proof.
  intros Hkey Hresp Hfalsy.
  unfold summarizeText, defaultApiKey, getSummarizationOptions. run.
  rewrite Hkey.
  destruct options; simpl; rewrite Hresp; simpl;
    destruct (firstContent response) as [[|]|]; done.
Qed.

Lemma summarizeText_placeholder_witness :
  (summarizeText Examples.enums (Examples.answering (Some "")) "some text"
     None (Some "sk-user") Examples.emptyWorld).1
  = Value "Could not generate a summary."
  ∧ (summarizeText Examples.enums (Examples.answering None) "some text"
       None (Some "sk-user") Examples.emptyWorld).1
    = Value "Could not generate a summary.".
Proof.
  split.
  - apply (summarizeText_placeholder _ _ _ _ _ "sk-user"
             (Examples.reply (Some ""))); reflexivity.
  - apply (summarizeText_placeholder _ _ _ _ _ "sk-user"
             (Examples.reply None)); reflexivity.
Defined.

(** ** Option resolution *)

Lemma coalesce_idem v d : coalesce (coalesce v d) d = coalesce v d.
Proof. unfold coalesce. destruct (nullish v) eqn:Hv; [| rewrite Hv]; try done. by destruct (nullish d). Qed.

(** [v ?? d], read off the user's object by cases. *)
Lemma coalesce_userValue w options k d :
  coalesce (peek w options k) d
  = match userValue w options k with
    | Some (VBool b) => VBool b
    | Some (VStr s) => VStr s
    | Some VNull | Some VUndefined | None => d
    end.
Proof.
  unfold peek, userValue. destruct options as [l |]; cbn; [| done].
  destruct (heap w !! l) as [x |]; cbn; [| done].
  by destruct (x !! k) as [[| | |] |].
Qed.


Lemma resolved_field w options k d (o : object) :
  o !! k = Some (coalesce (peek w options k) d) →
  match userValue w options k with
  | Some (VBool b) => o !! k = Some (VBool b)
  | Some (VStr s) => o !! k = Some (VStr s)
  | Some VNull | Some VUndefined | None => o !! k = Some d
  end.
Proof.
  rewrite coalesce_userValue.
  by destruct (userValue w options k) as [[| | |] |].
Qed.

Ltac resolves_one def :=
  eexists; cbv zeta;
  split; [unfold def; run; reflexivity |];
  split; [intros i x Hi; simpl; by apply lookup_app_l_Some |];
  split; [simpl; by apply list_lookup_middle |];
  split;
  [ intros k d Hk; repeat (apply elem_of_cons in Hk as [Hk | Hk]);
    try (by apply elem_of_nil in Hk); simplify_eq;
    apply resolved_field; by simplify_map_eq
  | split;
    [ cbn; rewrite !dom_insert_L, dom_empty_L; set_solver
    | unfold def; run; simpl;
      rewrite <- app_assoc, length_app, Nat.add_1_r; simpl;
      rewrite list_lookup_middle by done; simpl;
      simplify_map_eq; by rewrite !coalesce_idem ] ].

Ltac resolves_tac def :=
  intros options w; destruct options; resolves_one def.

(** C7: option resolution is total (it returns for every input, absent
    or partial), does not mutate its input object (it only allocates the
    result), fills every field with the user's value when present (a boolean
    or a string) and with the fixed default when the value is missing,
    [undefined] or [null], gives the result no other field, and is
    idempotent.  This holds for both revisions of
    [getSummarizationOptions]. *)
Theorem getSummarizationOptions_total_pure_idempotent (E : Enums) :
  resolves (getSummarizationOptions E)
    [("length", SummaryLength_STANDARD E);
     ("format", SummaryFormat_NARRATIVE E);
     ("listen", VBool false)]
  ∧ resolves (getSummarizationOptions5 E)
      [("length", SummaryLength_STANDARD E);
       ("format", SummaryFormat_NARRATIVE E);
       ("listen", VBool false);
       ("model", SummarizationModel_OPENAI E);
       ("speed", SummarizationSpeed_SLOW E)].
Proof.
  split.
  - resolves_tac getSummarizationOptions.
  - resolves_tac getSummarizationOptions5.
Qed.

(** On the partial input [{length: 'short', format: null, listen: false}]
    the later revision keeps the length and the [false], and takes the
    defaults for the format, the model and the speed; resolving the result
    again gives the same object.  On an absent input the first revision
    gives the three defaults. *)
Lemma getSummarizationOptions_total_pure_idempotent_witness :
  let w := mkWorld [partialOptions] [] [] in
  (∃ o : object,
     getSummarizationOptions5 Examples.enums (Some 0) w
     = (Value 1, mkWorld [partialOptions; o] [] [])
     ∧ heap w !! 0 = Some partialOptions
     ∧ o !! "length" = Some (VStr "short")
     ∧ o !! "format" = Some (VStr "narrative")
     ∧ o !! "listen" = Some (VBool false)
     ∧ o !! "model" = Some (VStr "openai")
     ∧ o !! "speed" = Some (VStr "slow")
     ∧ getSummarizationOptions5 Examples.enums (Some 1)
         (mkWorld [partialOptions; o] [] [])
       = (Value 2, mkWorld [partialOptions; o; o] [] []))
  ∧ (∃ o : object,
       getSummarizationOptions Examples.enums None w
       = (Value 1, mkWorld [partialOptions; o] [] [])
       ∧ o !! "length" = Some (VStr "standard")
       ∧ o !! "format" = Some (VStr "narrative")
       ∧ o !! "listen" = Some (VBool false)).
Proof.
  intros w.
  destruct (getSummarizationOptions_total_pure_idempotent Examples.enums)
    as [H3 H5].
  split.
  - destruct (H5 (Some 0) w) as (o & Hrun & _ & _ & Hf & _ & Hagain).
    exists o. split; [exact Hrun |]. split; [reflexivity |].
    split; [apply (Hf "length" (VStr "standard")); set_solver |].
    split; [apply (Hf "format" (VStr "narrative")); set_solver |].
    split; [apply (Hf "listen" (VBool false)); set_solver |].
    split; [apply (Hf "model" (VStr "openai")); set_solver |].
    split; [apply (Hf "speed" (VStr "slow")); set_solver |].
    exact Hagain.
  - destruct (H3 None w) as (o & Hrun & _ & _ & Hf & _).
    exists o. split; [exact Hrun |].
    split; [apply (Hf "length" (VStr "standard")); set_solver |].
    split; [apply (Hf "format" (VStr "narrative")); set_solver |].
    apply (Hf "listen" (VBool false)); set_solver.
Defined.

(** ** Strings *)

Lemma app_cons_s c (a b : string) : String c a +:+ b = String c (a +:+ b).
Proof. reflexivity. Qed.

Lemma app_nil_l_s (s : string) : "" +:+ s = s.
Proof. reflexivity. Qed.

Lemma app_nil_r_s (s : string) : s +:+ "" = s.
Proof. induction s as [| c s IH]; [done |]. by rewrite app_cons_s, IH. Qed.

Lemma app_assoc_s (a b c : string) : (a +:+ b) +:+ c = a +:+ (b +:+ c).
Proof. induction a as [| x a IH]; [done |]. by rewrite !app_cons_s, IH. Qed.

Lemma length_app_s (a b : string) :
  String.length (a +:+ b) = String.length a + String.length b.
Proof. induction a as [| x a IH]; [done |]. rewrite app_cons_s. cbn. by rewrite IH. Qed.

Lemma rev_app_spec (a b : string) : String.rev_app a b = String.rev a +:+ b.
Proof.
  unfold String.rev. revert b.
  induction a as [| c a IH]; intros b; cbn; [done |].
  rewrite IH, (IH (String c "")), app_assoc_s. done.
Qed.

Lemma rev_cons_s c (s : string) : String.rev (String c s) = String.rev s +:+ String c "".
Proof. unfold String.rev at 1. cbn. apply rev_app_spec. Qed.

Lemma rev_app_s (a b : string) : String.rev (a +:+ b) = String.rev b +:+ String.rev a.
Proof.
  induction a as [| c a IH].
  - by rewrite app_nil_l_s, app_nil_r_s.
  - by rewrite app_cons_s, !rev_cons_s, IH, app_assoc_s.
Qed.

Lemma length_rev_s (s : string) : String.length (String.rev s) = String.length s.
Proof.
  induction s as [| c s IH]; [done |].
  rewrite rev_cons_s, length_app_s, IH. cbn. lia.
Qed.

(** ** Upper and lower case *)

Lemma lowerChar_idem c : lowerChar (lowerChar c) = lowerChar c.
Proof. by destruct c as [[] [] [] [] [] [] [] []]. Qed.

Lemma lowerChar_slash c : Ascii.eqb (lowerChar c) "/" = Ascii.eqb c "/".
Proof. by destruct c as [[] [] [] [] [] [] [] []]. Qed.

Lemma lowerChar_dot c : Ascii.eqb (lowerChar c) "." = Ascii.eqb c ".".
Proof. by destruct c as [[] [] [] [] [] [] [] []]. Qed.

Lemma toLowerCase_idem s : toLowerCase (toLowerCase s) = toLowerCase s.
Proof. induction s; cbn; [done |]. by rewrite lowerChar_idem, IHs. Qed.

Lemma toLowerCase_app a b :
  toLowerCase (a +:+ b) = toLowerCase a +:+ toLowerCase b.
Proof.
  induction a as [| c a IH]; [done |].
  rewrite app_cons_s. cbn [toLowerCase]. by rewrite app_cons_s, IH.
Qed.

Lemma toLowerCase_length s : String.length (toLowerCase s) = String.length s.
Proof. induction s; cbn; [done | by f_equal]. Qed.

Lemma toLowerCase_rev s : String.rev (toLowerCase s) = toLowerCase (String.rev s).
Proof.
  induction s as [| c s IH]; [done |].
  cbn [toLowerCase]. by rewrite !rev_cons_s, IH, toLowerCase_app.
Qed.

Lemma toLowerCase_substring a n s :
  String.substring a n (toLowerCase s) = toLowerCase (String.substring a n s).
Proof.
  revert a n. induction s as [| c s IH]; intros [| a] [| n]; cbn; try done;
    by rewrite IH.
Qed.

(** ** [path.extname] *)

Lemma extLoop_toLowerCase rs st :
  Path.extLoop (toLowerCase rs) st = Path.extLoop rs st.
Proof.
  revert st. induction rs as [| c rs IH]; intros st; [done |].
  cbn [toLowerCase Path.extLoop].
  rewrite lowerChar_slash, lowerChar_dot, toLowerCase_length.
  destruct (Ascii.eqb c "/"); [by destruct (negb _) |].
  apply IH.
Qed.

Lemma extname_toLowerCase p :
  Path.extname (toLowerCase p) = toLowerCase (Path.extname p).
Proof.
  unfold Path.extname, Path.sliceStr.
  rewrite toLowerCase_rev, extLoop_toLowerCase.
  destruct (Path.startDot _); [| done].
  destruct (Path.endAt _); [| done].
  destruct (_ || _); [done |].
  apply toLowerCase_substring.
Qed.

Lemma allChars_app p a b : allChars p (a +:+ b) = allChars p a && allChars p b.
Proof.
  induction a as [| c a IH]; [done |].
  rewrite app_cons_s. cbn. by rewrite IH, andb_assoc.
Qed.

Lemma allChars_rev p s : allChars p (String.rev s) = allChars p s.
Proof.
  induction s as [| c s IH]; [done |].
  rewrite rev_cons_s, allChars_app, IH. cbn.
  by rewrite andb_true_r, andb_comm.
Qed.

Lemma substring_all (s : string) : String.substring 0 (String.length s) s = s.
Proof. induction s as [| c s IH]; cbn; [done | by rewrite IH]. Qed.

Lemma substring_app (a b : string) :
  String.substring (String.length a) (String.length b) (a +:+ b) = b.
Proof.
  induction a as [| c a IH]; [apply substring_all |].
  rewrite app_cons_s. cbn. apply IH.
Qed.

Lemma lastChar_rev (s : string) c :
  lastChar s = Some c → ∃ s', String.rev s = String c s'.
Proof.
  induction s as [| x s IH]; [done |].
  intros H. rewrite rev_cons_s. destruct s as [| y s].
  - cbn in H. simplify_eq. by exists "".
  - destruct (IH H) as [s' ->]. rewrite app_cons_s. eauto.
Qed.

(** Plain characters after the end of the name is known and before any dot
    leave the scan as it is. *)
Lemma extLoop_plain r rest st e :
  allChars plainChar r = true →
  Path.endAt st = Some e → Path.startDot st = None →
  Path.extLoop (r +:+ rest) st = Path.extLoop rest st.
Proof.
  intros Hr He Hd. induction r as [| c r IH]; [done |].
  rewrite app_cons_s. cbn in Hr. apply andb_true_iff in Hr as [Hc Hr].
  unfold plainChar in Hc. apply negb_true_iff, orb_false_iff in Hc as [Hdot Hsl].
  cbn [Path.extLoop]. rewrite Hsl, Hdot, He, Hd.
  by apply IH.
Qed.

Lemma extLoop_dotted rs st d e :
  dotted d e st → dotted d e (Path.extLoop rs st).
Proof.
  revert st. induction rs as [| c rs IH]; intros st (Hd & He & Hp); [done |].
  cbn [Path.extLoop]. destruct (Ascii.eqb c "/").
  - destruct (negb _); [done | by apply IH].
  - rewrite He, Hd. apply IH.
    destruct (Ascii.eqb c "."); [destruct (negb _) |]; unfold dotted; cbn; auto.
Qed.

Lemma extname_stem_ext (base e : string) :
  isStem base = true → isExtension e = true →
  Path.extname (base +:+ e) = e.
Proof.
  intros Hbase He.
  destruct e as [| d [| c body]]; try done.
  cbn in He. apply andb_true_iff in He as [He Hbody].
  apply andb_true_iff in He as [Hd Hc]. apply Ascii.eqb_eq in Hd as ->.
  unfold isStem in Hbase. destruct (lastChar base) as [x |] eqn:Hlast; [| done].
  apply negb_true_iff in Hbase.
  destruct (lastChar_rev _ _ Hlast) as [rb Hrb].
  assert (Hlen : String.length base = S (String.length rb)).
  { by rewrite <- (length_rev_s base), Hrb. }
  unfold Path.extname.
  rewrite rev_app_s, Hrb, rev_cons_s, app_assoc_s.
  set (body' := String c body) in *.
  assert (Hb' : allChars plainChar (String.rev body') = true).
  { rewrite allChars_rev. cbn. by rewrite Hc, Hbody. }
  assert (Hrev : ∃ y r, String.rev body' = String y r) .
  { destruct (String.rev body') as [| y r] eqn:Hr; [| eauto].
    apply (f_equal String.length) in Hr. by rewrite length_rev_s in Hr. }
  destruct Hrev as (y & r & Hyr). rewrite Hyr in *.
  cbn in Hb'. apply andb_true_iff in Hb' as [Hy Hr].
  pose proof Hy as Hy'. unfold plainChar in Hy'.
  apply negb_true_iff, orb_false_iff in Hy' as [Hydot Hysl].
  rewrite !app_cons_s. cbn [Path.extLoop]. rewrite Hysl, Hydot. cbn.
  erewrite extLoop_plain; [| done | done | done].
  rewrite app_nil_l_s. cbn [Path.extLoop].
  replace (Ascii.eqb "." "/") with false by done.
  replace (Ascii.eqb "." ".") with true by done. cbn.
  rewrite Hbase.
  match goal with
  | |- context [Path.extLoop rb ?st] =>
      set (fin := Path.extLoop rb st);
      assert (dotted (S (String.length rb))
                (String.length (r +:+ String "." (String x rb)) + 1) fin)
        as (Hsd & Hse & Hps)
  end.
  { apply extLoop_dotted.
    destruct (Ascii.eqb x "."); unfold dotted; cbn; auto. }
  clearbody fin.
  rewrite Hsd, Hse.
  assert (Hr' : String.length r = String.length body).
  { apply (f_equal String.length) in Hyr. rewrite length_rev_s in Hyr.
    cbn in Hyr. lia. }
  rewrite length_app_s. cbn [String.length]. rewrite Hr'.
  replace ((Path.preDotState _ =? 0)%Z) with false by (destruct Hps as [-> | ->]; done).
  replace (Nat.eqb (S (String.length rb)) _) with false
    by (symmetry; apply Nat.eqb_neq; lia).
  rewrite andb_false_r. cbn [orb andb].
  unfold Path.sliceStr. rewrite <- Hlen.
  replace (_ - String.length base) with (String.length (String "." body'))
    by (cbn; lia).
  apply substring_app.
Qed.

(** ** File extraction *)

Lemma parserFor_isExtension ext parser :
  parserFor (toLowerCase ext) = Some parser → isExtension ext = true.
Proof.
  unfold parserFor. intros H.
  assert (Hcases : toLowerCase ext = ".txt" ∨ toLowerCase ext = ".pdf"
                   ∨ toLowerCase ext = ".docx").
  { destruct (String.eqb_spec (toLowerCase ext) ".txt"); [auto |].
    destruct (String.eqb_spec (toLowerCase ext) ".pdf"); [auto |].
    destruct (String.eqb_spec (toLowerCase ext) ".docx"); [auto | done]. }
  clear H.
  assert (Hplain : ∀ c x, lowerChar c = x → plainChar x = true → plainChar c = true).
  { intros c x <-. unfold plainChar. by rewrite lowerChar_dot, lowerChar_slash. }
  assert (Hdot : ∀ c, lowerChar c = "."%char → Ascii.eqb c "." = true).
  { intros c Hc. by rewrite <- lowerChar_dot, Hc. }
  destruct Hcases as [H | [H | H]];
    repeat (destruct ext as [| ? ext]; [discriminate H |]);
    destruct ext; try discriminate H;
    cbn in H; simplify_eq; cbn;
    repeat match goal with
    | Hc : lowerChar ?c = "."%char |- _ => rewrite (Hdot c Hc); clear Hc
    | Hc : lowerChar ?c = ?x |- _ => rewrite (Hplain c x Hc eq_refl); clear Hc
    end; done.
Qed.

(** C8: a file whose name ends in an upper-case or mixed-case variant
    of a supported extension is routed to the parser of that extension,
    exactly like the file with the lower-cased name, and is not rejected as
    unsupported: the extension is lower-cased before the dispatch. *)
Theorem extractTextFromFile_extension_case P stem ext parser mime buf w :
  isStem stem = true →
  parserFor (toLowerCase ext) = Some parser →
  let file := mkFile (stem +:+ ext) mime buf in
  route (stem +:+ ext) = Some parser
  ∧ route (toLowerCase (stem +:+ ext)) = Some parser
  ∧ (∀ name, route name = route (toLowerCase name))
  ∧ extractTextFromFile P file w
    = match parser with
      | PlainText => (Value buf, w)
      | Pdf =>
          external (ParsePdf (stem +:+ ext))
            (λ t, extractTextFromPdf P t file) w
      | Docx =>
          external (ParseDocx (stem +:+ ext))
            (λ t, extractTextFromDocx P t file) w
      end.
Proof.
  intros Hstem Hext file.
  assert (Hroute : route (stem +:+ ext) = Some parser).
  { unfold route. rewrite extname_stem_ext; [done | done |].
    by eapply parserFor_isExtension. }
  assert (Hlower : ∀ name, route name = route (toLowerCase name)).
  { intros name. unfold route.
    by rewrite extname_toLowerCase, toLowerCase_idem. }
  split; [done |]. split; [by rewrite <- Hlower |]. split; [done |].
  unfold extractTextFromFile. unfold route in Hroute. cbn [originalname file].
    rewrite Hroute. by destruct parser.
Qed.

Lemma extractTextFromFile_extension_case_witness :
  route "REPORT.TXT" = Some PlainText
  ∧ route "Thesis.Pdf" = Some Pdf
  ∧ route "cv.DOCX" = Some Docx
  ∧ extractTextFromFile (Examples.healthy [])
      (mkFile "REPORT.TXT" "text/plain" "quarterly figures")
      Examples.emptyWorld
    = (Value "quarterly figures", Examples.emptyWorld).
Proof.
  pose proof (extractTextFromFile_extension_case (Examples.healthy [])
                "REPORT" ".TXT" PlainText "text/plain" "quarterly figures"
                Examples.emptyWorld eq_refl eq_refl) as (H1 & _ & _ & H3).
  pose proof (extractTextFromFile_extension_case (Examples.healthy [])
                "Thesis" ".Pdf" Pdf "" "" Examples.emptyWorld
                eq_refl eq_refl) as (H4 & _).
  pose proof (extractTextFromFile_extension_case (Examples.healthy [])
                "cv" ".DOCX" Docx "" "" Examples.emptyWorld
                eq_refl eq_refl) as (H5 & _).
  exact (conj H1 (conj H4 (conj H5 H3))).
Defined.

(** ** Splitting and joining *)

Lemma split_not_nil sep s : split sep s ≠ [].
Proof.
  destruct s as [| c s]; cbn; [done |].
  destruct (Ascii.eqb c sep); [done |]. by destruct (split sep s).
Qed.




Lemma join_cons sep x y l :
  Js.join sep (x :: y :: l) = x +:+ sep +:+ Js.join sep (y :: l).
Proof. reflexivity. Qed.


Lemma join_split sep s : Js.join (String sep "") (split sep s) = s.
Proof.
  induction s as [| c s IH]; [done |]. cbn [split].
  destruct (Ascii.eqb_spec c sep) as [-> | Hc].
  - pose proof (split_not_nil sep s) as Hne.
    destruct (split sep s) as [| w ws]; [done |].
    rewrite join_cons, IH. done.
  - pose proof (split_not_nil sep s) as Hne.
    destruct (split sep s) as [| w [| w' ws]]; [done | |].
    + cbn in *. by rewrite IH.
    + rewrite join_cons in *. rewrite app_cons_s. by rewrite IH.
Qed.



(** ** Words *)









(** ** Transcript truncation *)

Lemma safeLength_value : safeLength = 3750.
Proof. reflexivity. Qed.































(** ** The regular expression matcher *)

Lemma dropLit_spec l s s' : dropLit l s = Some s' ↔ s = l +:+ s'.
Proof.
  revert s. induction l as [| a l IH]; intros s; cbn.
  - rewrite app_nil_l_s. split; congruence.
  - destruct s as [| b s]; [by rewrite app_cons_s |].
    rewrite app_cons_s. destruct (Ascii.eqb_spec a b) as [-> | Hab].
    + rewrite IH. split; congruence.
    + split; [done | congruence].
Qed.

Lemma prefix_app (a b : string) : Regex.prefix (String.length a) (a +:+ b) = a.
Proof.
  induction a as [| c a IH]; [by destruct b |].
  rewrite app_cons_s. cbn. by rewrite IH.
Qed.

Lemma takeN_spec p n s rest :
  takeN p n s = Some rest ↔
  s = Regex.prefix n s +:+ rest ∧ String.length (Regex.prefix n s) = n
  ∧ allChars p (Regex.prefix n s) = true.
Proof.
  revert s. induction n as [| n IH]; intros s; cbn.
  - destruct s; cbn; rewrite ?app_nil_l_s;
      (split; [intros [= ->]; done | intros (? & _ & _); congruence]).
  - destruct s as [| c s]; cbn.
    + split; [done | by intros (_ & ? & _)].
    + rewrite app_cons_s. destruct (p c) eqn:Hc; cbn.
      * rewrite IH. split.
        -- intros (H1 & H2 & H3). rewrite <- H1, H2. done.
        -- intros (H1 & H2 & H3). simplify_eq. done.
      * split; [done | by intros (_ & _ & ?)].
Qed.

Lemma takeN_app p (a rest : string) :
  allChars p a = true → takeN p (String.length a) (a +:+ rest) = Some rest.
Proof.
  induction a as [| c a IH]; [done |]. cbn.
  intros [Hc Ha]%andb_true_iff. rewrite app_cons_s, Hc. by apply IH.
Qed.

Lemma exec_rep_cls n p pos s cs k :
  exec (Rep n (Cls p)) pos s cs k
  = match takeN p n s with
    | Some rest => k (pos + n) rest cs
    | None => None
    end.
Proof.
  revert pos s. induction n as [| n IH]; intros pos s.
  - cbn. by rewrite Nat.add_0_r.
  - cbn in *. destruct s as [| c s]; [done |].
    destruct (p c); [| done].
    rewrite IH. by replace (S pos + n) with (pos + S n) by lia.
Qed.

Lemma exec_idGroup pos s cs k :
  exec idGroup pos s cs k
  = match takeN isIdChar 11 s with
    | Some rest => k (pos + 11) rest ((1, Regex.prefix 11 s) :: cs)
    | None => None
    end.
Proof.
  unfold idGroup. cbn [exec]. 
  change (exec (Rep 11 (Cls isIdChar)) pos s cs
            (λ pos' s' cs', k pos' s' ((1, Regex.prefix (pos' - pos) s) :: cs'))
          = match takeN isIdChar 11 s with
            | Some rest => k (pos + 11) rest ((1, Regex.prefix 11 s) :: cs)
            | None => None
            end).
  rewrite exec_rep_cls. destruct (takeN isIdChar 11 s); [| done].
  by replace (pos + 11 - pos) with 11 by lia.
Qed.

Lemma exec_seq r1 r2 pos s cs k :
  exec (Seq r1 r2) pos s cs k
  = exec r1 pos s cs (λ pos' s' cs', exec r2 pos' s' cs' k).
Proof. reflexivity. Qed.

Lemma exec_alt r1 r2 pos s cs k :
  exec (Alt r1 r2) pos s cs k
  = match exec r1 pos s cs k with
    | Some x => Some x
    | None => exec r2 pos s cs k
    end.
Proof. reflexivity. Qed.

Lemma exec_lit l pos s cs k :
  exec (Lit l) pos s cs k
  = match dropLit l s with
    | Some s' => k (pos + String.length l) s' cs
    | None => None
    end.
Proof. reflexivity. Qed.

Lemma exec_ends1 pos s cs :
  exec (Alt (Lit "?") (Alt (Lit "&") (Alt (Lit "/") Eos))) pos s cs accept
  = if endsWith ends1 s then Some cs else None.
Proof.
  destruct s as [| c s]; [done |].
  by destruct c as [[] [] [] [] [] [] [] []].
Qed.

Lemma exec_ends2 pos s cs :
  exec (Alt (Lit "?") (Alt (Lit "&") Eos)) pos s cs accept
  = if endsWith ends2 s then Some cs else None.
Proof.
  destruct s as [| c s]; [done |].
  by destruct c as [[] [] [] [] [] [] [] []].
Qed.

(** After an opening: the identifier, then the end. *)
Lemma exec_id_ends1 pos s :
  exec (Seq idGroup (Alt (Lit "?") (Alt (Lit "&") (Alt (Lit "/") Eos))))
       pos s [] accept
  = match takeN isIdChar 11 s with
    | Some rest =>
        if endsWith ends1 rest then Some [(1, Regex.prefix 11 s)] else None
    | None => None
    end.
Proof.
  rewrite exec_seq, exec_idGroup.
  destruct (takeN isIdChar 11 s); [| done]. apply exec_ends1.
Qed.

Lemma exec_id_ends2 pos s :
  exec (Seq idGroup (Alt (Lit "?") (Alt (Lit "&") Eos))) pos s [] accept
  = match takeN isIdChar 11 s with
    | Some rest =>
        if endsWith ends2 rest then Some [(1, Regex.prefix 11 s)] else None
    | None => None
    end.
Proof.
  rewrite exec_seq, exec_idGroup.
  destruct (takeN isIdChar 11 s); [| done]. apply exec_ends2.
Qed.

(** The three patterns, at one position, are [matchAt]. *)
Lemma exec_pattern1 pos s :
  exec pattern1 pos s [] accept
  = (λ id, [(1, id)]) <$> matchAt ["v="; "/"] ends1 s.
Proof.
  unfold pattern1. rewrite exec_seq, exec_alt, !exec_lit. cbn [matchAt].
  destruct (dropLit "v=" s) as [s1 |]; [rewrite exec_id_ends1 |];
    (destruct (dropLit "/" s) as [s2 |]; [rewrite exec_id_ends1 |]);
    repeat (destruct (takeN _ _ _); try done);
    repeat (destruct (endsWith _ _); try done); done.
Qed.

Lemma exec_pattern2 pos s :
  exec pattern2 pos s [] accept
  = (λ id, [(1, id)]) <$> matchAt ["youtu.be/"] ends2 s.
Proof.
  unfold pattern2. rewrite exec_seq, exec_lit. cbn [matchAt].
  destruct (dropLit _ s) as [s1 |]; [rewrite exec_id_ends2 |];
    repeat (destruct (takeN _ _ _); try done);
    repeat (destruct (endsWith _ _); try done); done.
Qed.

Lemma exec_pattern3 pos s :
  exec pattern3 pos s [] accept
  = (λ id, [(1, id)]) <$> matchAt ["/shorts/"] ends2 s.
Proof.
  unfold pattern3. rewrite exec_seq, exec_lit. cbn [matchAt].
  destruct (dropLit _ s) as [s1 |]; [rewrite exec_id_ends2 |];
    repeat (destruct (takeN _ _ _); try done);
    repeat (destruct (endsWith _ _); try done); done.
Qed.

Lemma prefix_take_id n s rest :
  takeN isIdChar n s = Some rest →
  s = Regex.prefix n s +:+ rest ∧ String.length (Regex.prefix n s) = n
  ∧ allChars isIdChar (Regex.prefix n s) = true.
Proof. apply takeN_spec. Qed.

Lemma matchAt_Some lits ends s id :
  matchAt lits ends s = Some id →
  isId id = true
  ∧ ∃ l rest, l ∈ lits ∧ s = l +:+ id +:+ rest ∧ endsWith ends rest = true.
Proof.
  induction lits as [| l lits IH]; [done |]. cbn [matchAt].
  destruct (dropLit l s) as [s1 |] eqn:Hl;
    [destruct (takeN isIdChar 11 s1) as [rest |] eqn:Ht;
       [destruct (endsWith ends rest) eqn:He |] |].
  - intros Heq. assert (Hid : Regex.prefix 11 s1 = id) by congruence.
    clear Heq IH. subst id.
    apply prefix_take_id in Ht as (Hs1 & Hlen & Hall).
    split; [unfold isId; by rewrite Hlen, Hall |].
    exists l, rest. split; [by left |]. split; [| done].
    apply dropLit_spec in Hl. by rewrite <- Hs1.
  - intros H. destruct (IH H) as (? & l' & rest' & ? & ? & ?).
    split; [done |]. exists l', rest'. split; [by right | done].
  - intros H. destruct (IH H) as (? & l' & rest' & ? & ? & ?).
    split; [done |]. exists l', rest'. split; [by right | done].
  - intros H. destruct (IH H) as (? & l' & rest' & ? & ? & ?).
    split; [done |]. exists l', rest'. split; [by right | done].
Qed.

Lemma isId_length id : isId id = true → String.length id = 11.
Proof. unfold isId. intros [H _]%andb_true_iff. by apply Nat.eqb_eq. Qed.

Lemma isId_chars id : isId id = true → allChars isIdChar id = true.
Proof. unfold isId. by intros [_ H]%andb_true_iff. Qed.

(** An identifier after a slash is found by the first pattern. *)
Lemma matchAt_slash id rest :
  isId id = true → endsWith ends1 rest = true →
  matchAt ["v="; "/"] ends1 ("/" +:+ id +:+ rest) = Some id.
Proof.
  intros Hid Hrest. rewrite app_cons_s, app_nil_l_s.
  cbn [matchAt dropLit]. replace (Ascii.eqb "v" "/") with false by done.
  replace (Ascii.eqb "/" "/") with true by done.
  rewrite <- (isId_length id Hid), takeN_app, Hrest, prefix_app;
    [done | by apply isId_chars].
Qed.

Lemma ends2_ends1 rest : endsWith ends2 rest = true → endsWith ends1 rest = true.
Proof.
  destruct rest as [| c rest]; [done |]. cbn.
  intros H. apply orb_true_iff in H as [-> | H]; [done |].
  apply orb_true_iff in H as [-> | H]; [by rewrite orb_true_r | done].
Qed.

(** The search. *)
Lemma searchFrom_Some r pos s cs :
  searchFrom r pos s = Some cs →
  ∃ a b, s = a +:+ b ∧ exec r (pos + String.length a) b [] accept = Some cs.
Proof.
  revert pos. induction s as [| c s IH]; intros pos; cbn [searchFrom].
  - destruct (exec r pos "" [] accept) eqn:He; [| done].
    intros [= <-]. exists "", "". by rewrite Nat.add_0_r.
  - destruct (exec r pos (String c s) [] accept) eqn:He.
    + intros [= <-]. exists "", (String c s). by rewrite Nat.add_0_r.
    + intros H. destruct (IH _ H) as (a & b & -> & Hb).
      exists (String c a), b. split; [done |].
      cbn. by replace (pos + S (String.length a))
                with (S pos + String.length a) by lia.
Qed.

Lemma searchFrom_None r pos a b :
  searchFrom r pos (a +:+ b) = None →
  exec r (pos + String.length a) b [] accept = None.
Proof.
  revert pos. induction a as [| c a IH]; intros pos.
  - rewrite app_nil_l_s, Nat.add_0_r.
    destruct b; cbn [searchFrom]; by destruct (exec r pos _ [] accept).
  - rewrite app_cons_s. cbn [searchFrom].
    destruct (exec r pos _ [] accept); [done |].
    intros H. apply IH in H. cbn.
    by replace (pos + S (String.length a))
         with (S pos + String.length a) by lia.
Qed.

Lemma searchFrom_skip r pos c s :
  exec r pos (String c s) [] accept = None →
  searchFrom r pos (String c s) = searchFrom r (S pos) s.
Proof. intros H. cbn [searchFrom]. by rewrite H. Qed.

Lemma searchFrom_here r pos s cs :
  exec r pos s [] accept = Some cs → searchFrom r pos s = Some cs.
Proof. intros H. destruct s; cbn [searchFrom]; by rewrite H. Qed.

(** Whatever a pattern that opens with a literal ending in a slash finds,
    the first pattern finds too (possibly further left). *)
Lemma pattern1_subsumes r stem url :
  (∀ pos s, exec r pos s [] accept
            = (λ id, [(1, id)]) <$> matchAt [stem +:+ "/"] ends2 s) →
  matchRe pattern1 url = None → matchRe r url = None.
Proof.
  intros Hr H1. unfold matchRe in *.
  destruct (searchFrom r 0 url) as [cs |] eqn:Hs; [| done].
  exfalso. apply searchFrom_Some in Hs as (a & b & -> & Hb).
  rewrite Hr in Hb.
  destruct (matchAt _ ends2 b) as [id |] eqn:Hm; [| done].
  apply matchAt_Some in Hm as (Hid & l & rest & Hl & -> & Hrest).
  apply list_elem_of_singleton in Hl as ->.
  rewrite app_assoc_s, <- (app_assoc_s a) in H1.
  apply searchFrom_None in H1.
  rewrite exec_pattern1, matchAt_slash in H1;
    [done | done | by apply ends2_ends1].
Qed.

Lemma pattern2_subsumed url :
  matchRe pattern1 url = None → matchRe pattern2 url = None.
Proof. apply (pattern1_subsumes pattern2 "youtu.be"), exec_pattern2. Qed.

Lemma pattern3_subsumed url :
  matchRe pattern1 url = None → matchRe pattern3 url = None.
Proof. apply (pattern1_subsumes pattern3 "/shorts"), exec_pattern3. Qed.

Lemma pattern1_capture url cs :
  matchRe pattern1 url = Some cs →
  ∃ id, cs = [(1, id)] ∧ isId id = true.
Proof.
  intros H. apply searchFrom_Some in H as (a & b & -> & Hb).
  rewrite exec_pattern1 in Hb.
  destruct (matchAt _ ends1 b) as [id |] eqn:Hm; [| done].
  apply matchAt_Some in Hm as (Hid & _). exists id. cbn in Hb.
  split; [congruence | done].
Qed.

Lemma extractVideoId_pattern1 url :
  extractVideoId url = matchRe pattern1 url ≫= capture 1.
Proof.
  unfold extractVideoId, patterns. cbn [firstMatch].
  destruct (matchRe pattern1 url) as [cs |] eqn:H1; [done |].
  by rewrite (pattern2_subsumed url H1), (pattern3_subsumed url H1).
Qed.

(** A short link that also carries a [v=] query: the first pattern stops
    at the path segment. *)
Lemma pattern1_short_link_with_query id1 id2 :
  isId id1 = true →
  matchRe pattern1 ("https://youtu.be/" +:+ id1 +:+ "?v=" +:+ id2)
  = Some [(1, id1)].
Proof.
  intros Hid1. unfold matchRe.
  rewrite !app_cons_s, !app_nil_l_s.
  do 16 (rewrite searchFrom_skip by (rewrite exec_pattern1; reflexivity)).
  apply searchFrom_here. rewrite exec_pattern1.
  change (String "/" (id1 +:+ String "?" (String "v" (String "=" id2))))
    with ("/" +:+ id1 +:+ String "?" (String "v" (String "=" id2))).
  by rewrite matchAt_slash.
Qed.

(** ** Video identifiers *)

(** C4, as the specification states it, fails: the URL below matches the
    first and the second pattern, it carries the identifier [ABCDEFGHIJK]
    in its [v=] query, and [extractVideoId] returns the identifier of the
    path segment instead. *)
Lemma extractVideoId_not_canonical :
  let url := "https://youtu.be/abcdefghijk?v=ABCDEFGHIJK" in
  is_Some (matchRe pattern1 url)
  ∧ is_Some (matchRe pattern2 url)
  ∧ canonicalId url = Some "ABCDEFGHIJK"
  ∧ extractVideoId url = Some "abcdefghijk"
  ∧ extractVideoId url ≠ canonicalId url.
Proof.
  assert (H1 : matchRe pattern1 "https://youtu.be/abcdefghijk?v=ABCDEFGHIJK"
               = Some [(1, "abcdefghijk")]) by reflexivity.
  assert (H2 : matchRe pattern2 "https://youtu.be/abcdefghijk?v=ABCDEFGHIJK"
               = Some [(1, "abcdefghijk")]) by reflexivity.
  assert (H3 : canonicalId "https://youtu.be/abcdefghijk?v=ABCDEFGHIJK"
               = Some "ABCDEFGHIJK") by reflexivity.
  assert (H4 : extractVideoId "https://youtu.be/abcdefghijk?v=ABCDEFGHIJK"
               = Some "abcdefghijk") by reflexivity.
  cbv zeta. rewrite H1, H2, H3, H4. repeat split; eauto; discriminate.
Qed.

(** C4, amended: [extractVideoId] tries its three patterns in source
    order and returns the first capture group, eleven characters of
    [[\w-]], of the first pattern that matches, or nothing when no pattern
    matches.  The first pattern accepts an identifier after [v=] and after a
    slash alike and takes its leftmost match, and it matches whenever the
    second or the third pattern does: so the result is always the leftmost
    match of the first pattern, and a short link that carries a [v=] query
    as well yields the identifier of its path segment. *)
Theorem extractVideoId_first_pattern_decides (url id1 id2 : string) :
  isId id1 = true → isId id2 = true →
  extractVideoId url
  = match matchRe pattern1 url with
    | Some m => capture 1 m
    | None =>
        match matchRe pattern2 url with
        | Some m => capture 1 m
        | None =>
            match matchRe pattern3 url with
            | Some m => capture 1 m
            | None => None
            end
        end
    end
  ∧ (∀ id, extractVideoId url = Some id → isId id = true)
  ∧ (extractVideoId url = None ↔
     matchRe pattern1 url = None ∧ matchRe pattern2 url = None
     ∧ matchRe pattern3 url = None)
  ∧ extractVideoId url = matchRe pattern1 url ≫= capture 1
  ∧ extractVideoId ("https://youtu.be/" +:+ id1 +:+ "?v=" +:+ id2) = Some id1.
Proof.
  intros Hid1 Hid2.
  split; [reflexivity |]. split; [| split; [| split]].
  - intros id. rewrite extractVideoId_pattern1.
    destruct (matchRe pattern1 url) as [cs |] eqn:H1; [| done].
    apply pattern1_capture in H1 as (id' & -> & Hid'). cbn. congruence.
  - rewrite extractVideoId_pattern1. split.
    + destruct (matchRe pattern1 url) as [cs |] eqn:H1.
      * apply pattern1_capture in H1 as (id' & -> & _). done.
      * intros _. split; [done |].
        split; [by apply pattern2_subsumed | by apply pattern3_subsumed].
    + by intros (-> & _).
  - apply extractVideoId_pattern1.
  - by rewrite extractVideoId_pattern1, pattern1_short_link_with_query.
Qed.

Lemma extractVideoId_first_pattern_decides_witness :
  extractVideoId "https://www.youtube.com/watch?v=dQw4w9WgXcQ"
  = matchRe pattern1 "https://www.youtube.com/watch?v=dQw4w9WgXcQ"
    ≫= capture 1
  ∧ extractVideoId ("https://youtu.be/" +:+ "abcdefghijk" +:+ "?v="
                    +:+ "ABCDEFGHIJK") = Some "abcdefghijk".
Proof.
  pose proof (extractVideoId_first_pattern_decides
                "https://www.youtube.com/watch?v=dQw4w9WgXcQ"
                "abcdefghijk" "ABCDEFGHIJK" eq_refl eq_refl)
    as (_ & _ & _ & H4 & H5).
  exact (conj H4 H5).
Defined.

(** ** Traces *)

Lemma summarized_app t1 t2 :
  summarized (t1 ++ t2) = summarized t1 ++ summarized t2.
Proof.
  induction t1 as [| e t1 IH]; [done |].
  destruct e; cbn; by rewrite ?IH.
Qed.

Lemma getSummarizationOptions_run E options w :
  ∃ o, getSummarizationOptions E options w
       = (Value (length (heap w)),
          mkWorld (heap w ++ [o]) (files w) (trace w)).
Proof.
  destruct options; eexists; unfold getSummarizationOptions; run; reflexivity.
Qed.

Lemma extractTextFromFile_trace P file w :
  files (extractTextFromFile P file w).2 = files w
  ∧ summarized (trace (extractTextFromFile P file w).2) = summarized (trace w).
Proof.
  unfold extractTextFromFile.
  destruct (parserFor _) as [[| |] |]; run; cbn;
    rewrite ?summarized_app; cbn; by rewrite ?app_nil_r.
Qed.

Lemma summarizeText_trace E P text options key w :
  files (summarizeText E P text options key w).2 = files w
  ∧ summarized (trace (summarizeText E P text options key w).2)
    = summarized (trace w) ++ [text].
Proof.
  unfold summarizeText, getSummarizationOptions. run.
  destruct (getApiKey key (defaultApiKey P)) as [k | e]; cbn.
  - destruct options; cbn;
      destruct (completionsCreate P _ k _); cbn;
      rewrite !summarized_app; cbn; by rewrite ?app_nil_r.
  - by rewrite summarized_app.
Qed.

(** ** Empty content *)

(** C3, as the specification states it, fails, in two ways.  An uploaded
    text file whose content is [" hi "] reaches [summarizeText] as it is, not
    trimmed.  And a video whose transcript has no segment is summarized all
    the same: the empty string goes to [summarizeText], and the request
    succeeds. *)
Lemma extracted_text_not_trimmed_nor_checked :
  (let r := summarizeFile Examples.enums (Examples.healthy [])
              (mkFile "notes.txt" "text/plain" " hi ") None None
              Examples.emptyWorld in
   summarized (trace r.2) = [" hi "] ∧ trim " hi " ≠ " hi ")
  ∧ (let r := summarizeYouTubeVideo Examples.enums (Examples.healthy [])
                "https://www.youtube.com/watch?v=abcdefghijk" None None
                Examples.emptyWorld in
     r.1 = Value (mkVideoSummary "" "a summary")
     ∧ summarized (trace r.2) = [""]).
Proof. repeat split; discriminate. Qed.

(** C3, amended: for every file upload, when the extraction yields a
    text that is empty after trimming, the request fails with the
    empty-content error (a [BadRequestException]) and [summarizeText] is not
    invoked; otherwise the text goes to [summarizeText] as extracted (not
    trimmed), so the text handed over is never empty after trimming. *)
Theorem summarizeFile_guards_empty_text E P file optionsDto userApiKey
    w options w1 text w2 :
  getSummarizationOptions E optionsDto w = (Value options, w1) →
  extractTextFromFile P file w1 = (Value text, w2) →
  (trim text = "" →
     summarizeFile E P file optionsDto userApiKey w
     = (Raise (BadRequestException "Could not extract text from the file."),
        w2)
     ∧ summarized (trace w2) = summarized (trace w))
  ∧ (trim text ≠ "" →
     let r := summarizeFile E P file optionsDto userApiKey w in
     r = summarizeText E P text (Some options) userApiKey w2
     ∧ summarized (trace r.2) = summarized (trace w) ++ [text]).
Proof.
  intros Hopt Hext.
  assert (Htr : summarized (trace w2) = summarized (trace w)).
  { pose proof (extractTextFromFile_trace P file w1) as [_ H].
    rewrite Hext in H. cbn in H. rewrite H.
    destruct (getSummarizationOptions_run E optionsDto w) as [o Ho].
    rewrite Ho in Hopt. by simplify_eq. }
  assert (Hrun : summarizeFile E P file optionsDto userApiKey w
                 = if negb (truthy (Some (trim text)))
                   then (Raise (BadRequestException
                                  "Could not extract text from the file."), w2)
                   else summarizeText E P text (Some options) userApiKey w2).
  { unfold summarizeFile. cbv [mbind M_bind]. rewrite Hopt, Hext.
    by destruct (negb _). }
  split.
  - intros Hempty. rewrite Hrun, Hempty. done.
  - intros Hne r. subst r. rewrite Hrun.
    destruct (trim text) eqn:Ht; [done |]. cbn [truthy negb].
    split; [done |].
    pose proof (summarizeText_trace E P text (Some options) userApiKey w2)
      as [_ H]. by rewrite H, Htr.
Qed.

Lemma summarizeFile_guards_empty_text_witness :
  (summarizeFile Examples.enums (Examples.healthy [])
     (mkFile "blank.txt" "text/plain" "   ") None None Examples.emptyWorld).1
  = Raise (BadRequestException "Could not extract text from the file.")
  ∧ summarized (trace (summarizeFile Examples.enums (Examples.healthy [])
       (mkFile "notes.txt" "text/plain" " hi ") None None
       Examples.emptyWorld).2) = [] ++ [" hi "].
Proof.
  split.
  - destruct (summarizeFile_guards_empty_text Examples.enums
                (Examples.healthy []) (mkFile "blank.txt" "text/plain" "   ")
                None None Examples.emptyWorld _ _ _ _ eq_refl eq_refl)
      as [H1 _].
    destruct (H1 eq_refl) as [-> _]. reflexivity.
  - destruct (summarizeFile_guards_empty_text Examples.enums
                (Examples.healthy []) (mkFile "notes.txt" "text/plain" " hi ")
                None None Examples.emptyWorld _ _ _ _ eq_refl eq_refl)
      as [_ H2].
    apply H2. discriminate.
Defined.

(** ** The audio fallback *)

Lemma transcribeAudio_files P audioPath key w :
  files (transcribeAudio P audioPath key w).2 = files w.
Proof.
  unfold transcribeAudio. run.
  destruct (getApiKey key (defaultApiKey P)); [| done].
  by destruct (transcriptionsCreate P _ _ _).
Qed.

Lemma downloadAudio_exists P url w audioPath w1 :
  downloadAudio P url w = (Value audioPath, w1) → audioPath ∈ files w1.
Proof.
  unfold downloadAudio. run.
  destruct (ytdlp P _ _ _ _) as [[[] | e] fs]; cbn; [| done].
  case_bool_decide; cbn; [| done].
  by intros [= <- <-].
Qed.

(** Whatever fails in the audio branch comes out as a plain [Error]. *)
Lemma summarizeYouTubeVideoUsingAudio_error E P url options key w e :
  (summarizeYouTubeVideoUsingAudio E P url options key w).1 = Raise e →
  ∃ m, e = Error ("Failed to summarize video using audio: " +:+ m).
Proof.
  unfold summarizeYouTubeVideoUsingAudio. run.
  destruct (downloadAudio P url w) as [[audioPath | e1] w1];
    [| intros [= <-]; eauto].
  destruct (transcribeAudio P audioPath key w1) as [[text | e2] w2];
    [| intros [= <-]; eauto].
  destruct (summarizeText E P text options key w2) as [[sm | e3] w3];
    [done | intros [= <-]; eauto].
Qed.

(** X28: when a step after the download fails, nothing is deleted: the
    files are those the download left, the audio file among them. *)
Lemma cleanup_skipped_on_failure E P url options key w audioPath w1 e :
  downloadAudio P url w = (Value audioPath, w1) →
  (summarizeYouTubeVideoUsingAudio E P url options key w).1 = Raise e →
  files (summarizeYouTubeVideoUsingAudio E P url options key w).2 = files w1
  ∧ audioPath ∈ files (summarizeYouTubeVideoUsingAudio E P url options key w).2.
Proof.
  intros Hd Hfail.
  assert (Hfiles : files (summarizeYouTubeVideoUsingAudio E P url options
                            key w).2 = files w1).
  { revert Hfail. unfold summarizeYouTubeVideoUsingAudio. run. rewrite Hd.
    pose proof (transcribeAudio_files P audioPath key w1) as Ht.
    destruct (transcribeAudio P audioPath key w1) as [[text | e2] w2];
      [| done].
    pose proof (summarizeText_trace E P text options key w2) as [Hs _].
    destruct (summarizeText E P text options key w2) as [[sm | e3] w3];
      [done |]. cbn in *. congruence. }
  split; [done |]. rewrite Hfiles. by eapply downloadAudio_exists.
Qed.

(** When every step succeeds, no file of the download directory that starts
    with the prefix of the audio file is left. *)
Lemma cleanup_on_success E P url options key w audioPath w1 r :
  downloadAudio P url w = (Value audioPath, w1) →
  (summarizeYouTubeVideoUsingAudio E P url options key w).1 = Value r →
  ∀ p, p ∈ files (summarizeYouTubeVideoUsingAudio E P url options key w).2 →
       inDirWithPrefix (DOWNLOAD_DIR P) (extractPrefixFromPath audioPath) p
       = false.
Proof.
  intros Hd. unfold summarizeYouTubeVideoUsingAudio. run. rewrite Hd.
  destruct (transcribeAudio P audioPath key w1) as [[text | e2] w2]; [| done].
  destruct (summarizeText E P text options key w2) as [[sm | e3] w3];
    [| done].
  cbn. intros _ p Hp. by apply list_elem_of_filter in Hp as [Hp _].
Qed.

(** A run in which every step succeeds: the download leaves the audio file
    and a partial file under the same prefix, and both are gone at the end. *)
Lemma audio_files_removed_on_success :
  let r := summarizeYouTubeVideo Examples.enums (Examples.healthy [])
             "https://youtu.be/x" None None Examples.emptyWorld in
  r.1 = Value (mkVideoSummary "spoken words" "a summary")
  ∧ trace r.2
    = [Download "https://youtu.be/x" "/app/downloads/k3x9.mp3";
       Transcribe "sk-default" "/app/downloads/k3x9.mp3";
       SummarizeText "spoken words";
       Complete "sk-default"
         ("Summarize the following text in a standard format, "
          +:+ "in narrative style:" +:+ newline +:+ newline
          +:+ "spoken words")]
  ∧ files r.2 = [].
Proof. repeat split. Qed.

(** ** Errors of the video pipeline *)

(** X27: the only errors [summarizeYouTubeVideo] ends in are the
    rejection of the URL, and the error of the audio branch, which passes as
    it is: a plain [Error] whose message starts with ['Failed to summarize
    video using audio: ']. *)
Lemma summarizeYouTubeVideo_errors E P url optionsDto key w e :
  (summarizeYouTubeVideo E P url optionsDto key w).1 = Raise e →
  e = BadRequestException "Invalid YouTube URL"
  ∨ ∃ m, e = Error ("Failed to summarize video using audio: " +:+ m).
Proof.
  unfold summarizeYouTubeVideo.
  destruct (negb (isValidYouTubeUrl url)); [intros [= <-]; by left |].
  cbv [mbind M_bind].
  destruct (getSummarizationOptions_run E optionsDto w) as [o ->].
  set (w1 := mkWorld _ _ _). set (l := length (heap w)).
  intros H. right. revert H. run.
  destruct (negb (truthy (extractVideoId url))).
  - pose proof (summarizeYouTubeVideoUsingAudio_error E P url (Some l) key w1)
      as Ha.
    destruct (summarizeYouTubeVideoUsingAudio E P url (Some l) key w1)
      as [[r | e1] w2]; cbn in *; [done |].
    intros [= <-]. by apply Ha.
  - destruct (fetchYouTubeTranscript P _ w1) as [[text | e1] w2].
    + destruct (summarizeText E P text (Some l) key w2) as [[sm | e2] w3];
        [done |].
      pose proof (summarizeYouTubeVideoUsingAudio_error E P url (Some l) key
                    w3) as Ha.
      destruct (summarizeYouTubeVideoUsingAudio E P url (Some l) key w3)
        as [[r | e3] w4]; cbn in *; [done |].
      intros [= <-]. by apply Ha.
    + pose proof (summarizeYouTubeVideoUsingAudio_error E P url (Some l) key
                    w2) as Ha.
      destruct (summarizeYouTubeVideoUsingAudio E P url (Some l) key w2)
        as [[r | e3] w4]; cbn in *; [done |].
      intros [= <-]. by apply Ha.
Qed.

(** C1: the claim does not hold of the code.  A video without captions
    is sent to the audio branch; the download creates the audio file under
    the generated prefix [k3x9]; the speech-to-text service fails; the
    request ends in an error and the audio file is still in the download
    directory.  [cleanupFiles] is only reached when every step succeeded. *)
Theorem audio_file_outlives_failed_request :
  let r := summarizeYouTubeVideo Examples.enums Examples.whisperDown
             "https://youtu.be/x" None None Examples.emptyWorld in
  r.1 = Raise (Error ("Failed to summarize video using audio: "
                      +:+ "Failed to transcribe audio: 503 Service Unavailable"))
  ∧ trace r.2 = [Download "https://youtu.be/x" "/app/downloads/k3x9.mp3";
                 Transcribe "sk-default" "/app/downloads/k3x9.mp3"]
  ∧ files r.2 = ["/app/downloads/k3x9.mp3"]
  ∧ inDirWithPrefix (DOWNLOAD_DIR Examples.whisperDown) "k3x9"
      "/app/downloads/k3x9.mp3" = true.
Proof. repeat split. Qed.

(** C2: the claim does not hold of the code.  When the audio branch
    fails, here because the download fails, the caller of
    [summarizeYouTubeVideo] receives the plain [Error] of that branch, not a
    [BadRequestException]: the promise of the branch is returned without
    [await], so its rejection passes both [catch] clauses. *)
Theorem audio_failure_reaches_caller_unwrapped :
  let r := summarizeYouTubeVideo Examples.enums Examples.downloadDown
             "https://www.youtube.com/watch?v=abcdefghijk" None None
             Examples.emptyWorld in
  r.1 = Raise (Error ("Failed to summarize video using audio: "
                      +:+ "Failed to download audio"))
  ∧ (∀ e, r.1 = Raise e → isBadRequest e = false).
Proof.
  split; [reflexivity |]. intros e. cbv zeta.
  intros [= <-]. reflexivity.
Qed.

(* ===================================================================== *)
(** * Further properties *)
(* ===================================================================== *)

(** ** Video metadata *)

Lemma extractVideoId_isId url id : extractVideoId url = Some id → isId id = true.
Proof.
  rewrite extractVideoId_pattern1.
  destruct (matchRe pattern1 url) as [cs |] eqn:H1; [| done].
  apply pattern1_capture in H1 as (id' & -> & Hid'). cbn. congruence.
Qed.

Lemma isId_truthy id : isId id = true → truthy (Some id) = true.
Proof. intros H%isId_length. by destruct id. Qed.

Lemma orElse_truthy v d : truthyVal d = true → truthyVal (orElse v d) = true.
Proof. unfold orElse. by destruct (truthyVal v) eqn:Hv. Qed.

(** X1: [extractYouTubeVideoMetadata] never rejects, and its result is
    all or nothing: either the three fields are [null], or the URL has an
    identifier, the thumbnail is the image URL built from it, and the title
    and the channel name are truthy (a default stands in for a missing
    one). *)
Theorem extractYouTubeVideoMetadata_all_or_nothing fetch url :
  ∃ m, extractYouTubeVideoMetadata fetch url = Value m
       ∧ (m = emptyResult
          ∨ ∃ id, extractVideoId url = Some id
                  ∧ thumbnail m
                    = VStr ("https://img.youtube.com/vi/" +:+ id
                            +:+ "/hqdefault.jpg")
                  ∧ truthyVal (title m) = true
                  ∧ truthyVal (channelName m) = true).
Proof.
  unfold extractYouTubeVideoMetadata.
  destruct (extractVideoId url) as [id |] eqn:Hid; [| eauto].
  destruct (negb (truthy (Some id))); [eauto |].
  cbv [mbind outcome_bind].
  destruct (fetch _) as [[[[data |] | e2]] | e1]; cbn; eauto.
  eexists. split; [done |]. right. exists id.
  repeat split; by apply orElse_truthy.
Qed.

(** X2: [extractYouTubeVideoMetadata] consults the network only for a
    URL with an identifier.  With the calls to [fetch] on record: for a URL
    from which [extractVideoId] extracts nothing the result is the all-null
    one and the record of requests is as it was, whatever the network would
    answer; for a URL with identifier [id] exactly one request is made, to
    the oEmbed URL of [id].  In both cases the result is that of the function
    read without the record. *)
Theorem extractYouTubeVideoMetadata_requests answer url log :
  let r := Net.extractYouTubeVideoMetadata answer url log in
  r.1 = extractYouTubeVideoMetadata (answer log) url
  ∧ match extractVideoId url with
    | None => r = (Value emptyResult, log)
    | Some id => r.2 = log ++ [oEmbedUrl id]
    end.
Proof.
  cbv zeta. unfold Net.extractYouTubeVideoMetadata, extractYouTubeVideoMetadata.
  destruct (extractVideoId url) as [id |] eqn:Hid; [| by split].
  rewrite (isId_truthy id (extractVideoId_isId url id Hid)).
  cbn [negb]. change (default "" (Some id)) with id.
  cbv [Net.tryCatch Net.fetch Net.lift mbind Net.Net_bind mret Net.Net_ret
       outcome_bind outcome_ret].
  destruct (answer log (oEmbedUrl id)) as [response | e]; [| by split].
  destruct (json response) as [data | e]; [| by split].
  destruct (dataProp data "title") as [title0 | e]; [| by split].
  by destruct (dataProp data "author_name") as [author | e].
Qed.

Lemma extractYouTubeVideoMetadata_requests_witness :
  Net.extractYouTubeVideoMetadata
    (λ _ _, Value (mkResponse (Value (Some ∅))))
    "https://www.youtube.com/channel/UC123" ["https://example.org/"]
  = (Value emptyResult, ["https://example.org/"])
  ∧ (Net.extractYouTubeVideoMetadata
       (λ _ _, Raise (TypeError "fetch failed"))
       "https://youtu.be/dQw4w9WgXcQ" []).2
    = [] ++ ["https://www.youtube.com/oembed?url=https://www.youtube.com/watch?v=dQw4w9WgXcQ&format=json"].
Proof.
  split.
  - exact (proj2 (extractYouTubeVideoMetadata_requests
                    (λ _ _, Value (mkResponse (Value (Some ∅))))
                    "https://www.youtube.com/channel/UC123"
                    ["https://example.org/"])).
  - exact (proj2 (extractYouTubeVideoMetadata_requests
                    (λ _ _, Raise (TypeError "fetch failed"))
                    "https://youtu.be/dQw4w9WgXcQ" [])).
Defined.

(** X3: for a URL with identifier [id], when the oEmbed endpoint is
    fetched for that identifier and answers with an object, the result holds
    the thumbnail URL built from [id], the [title] of the answer or
    ['Unknown Title'] when that is falsy, and its [author_name] or
    ['Unknown Channel']. *)
Theorem extractYouTubeVideoMetadata_success fetch url id response data :
  extractVideoId url = Some id →
  fetch (oEmbedUrl id) = Value response →
  json response = Value (Some data) →
  extractYouTubeVideoMetadata fetch url
  = Value (mkMetadata
             (VStr ("https://img.youtube.com/vi/" +:+ id +:+ "/hqdefault.jpg"))
             (orElse (default VUndefined (data !! "title"))
                     (VStr "Unknown Title"))
             (orElse (default VUndefined (data !! "author_name"))
                     (VStr "Unknown Channel"))).
Proof.
  intros Hid Hfetch Hjson. unfold extractYouTubeVideoMetadata.
  rewrite Hid, (isId_truthy id (extractVideoId_isId url id Hid)).
  cbn -[oEmbedUrl]. rewrite Hfetch. cbn. by rewrite Hjson.
Qed.

Lemma extractYouTubeVideoMetadata_success_witness :
  extractYouTubeVideoMetadata
    (λ _, Value (mkResponse (Value (Some {["title" := VStr ""]}))))
    "https://youtu.be/dQw4w9WgXcQ"
  = Value (mkMetadata
             (VStr "https://img.youtube.com/vi/dQw4w9WgXcQ/hqdefault.jpg")
             (VStr "Unknown Title") (VStr "Unknown Channel")).
Proof.
  rewrite (extractYouTubeVideoMetadata_success
             (λ _, Value (mkResponse (Value (Some {["title" := VStr ""]}))))
             "https://youtu.be/dQw4w9WgXcQ" "dQw4w9WgXcQ"
             (mkResponse (Value (Some {["title" := VStr ""]})))
             {["title" := VStr ""]} eq_refl eq_refl eq_refl).
  reflexivity.
Defined.

(** X4: when the request fails, or the body cannot be parsed, or the
    body is [null], every field of the result is [null], the thumbnail too,
    although the identifier was found. *)
Theorem extractYouTubeVideoMetadata_failure fetch url id :
  extractVideoId url = Some id →
  (∃ e, fetch (oEmbedUrl id) = Raise e)
  ∨ (∃ response, fetch (oEmbedUrl id) = Value response
                 ∧ (json response = Value None ∨ ∃ e, json response = Raise e)) →
  extractYouTubeVideoMetadata fetch url = Value emptyResult.
Proof.
  intros Hid Hfail. unfold extractYouTubeVideoMetadata.
  rewrite Hid, (isId_truthy id (extractVideoId_isId url id Hid)).
  cbn -[oEmbedUrl].
  destruct Hfail as [[e ->] | (response & -> & Hjson)]; [done |].
  cbn. by destruct Hjson as [-> | [e ->]].
Qed.

Lemma extractYouTubeVideoMetadata_failure_witness :
  extractYouTubeVideoMetadata
    (λ _, Raise (ProviderError "getaddrinfo ENOTFOUND www.youtube.com"))
    "https://youtu.be/dQw4w9WgXcQ"
  = Value emptyResult
  ∧ extractYouTubeVideoMetadata
      (λ _, Value (mkResponse (Raise (ProviderError "Unexpected token <"))))
      "https://youtu.be/dQw4w9WgXcQ"
    = Value emptyResult.
Proof.
  split.
  - apply (extractYouTubeVideoMetadata_failure _ _ "dQw4w9WgXcQ");
      [reflexivity | left; eauto].
  - apply (extractYouTubeVideoMetadata_failure _ _ "dQw4w9WgXcQ");
      [reflexivity | right; eexists; split; [reflexivity | right; eauto]].
Defined.

(** ** Calls in a trace *)

Lemma fetched_app t1 t2 : fetched (t1 ++ t2) = fetched t1 ++ fetched t2.
Proof. induction t1 as [| e t1 IH]; [done |]. destruct e; cbn; by rewrite ?IH. Qed.

Lemma downloaded_app t1 t2 :
  downloaded (t1 ++ t2) = downloaded t1 ++ downloaded t2.
Proof. induction t1 as [| e t1 IH]; [done |]. destruct e; cbn; by rewrite ?IH. Qed.

Lemma transcribed_app t1 t2 :
  transcribed (t1 ++ t2) = transcribed t1 ++ transcribed t2.
Proof. induction t1 as [| e t1 IH]; [done |]. destruct e; cbn; by rewrite ?IH. Qed.

Lemma completed_app t1 t2 : completed (t1 ++ t2) = completed t1 ++ completed t2.
Proof. induction t1 as [| e t1 IH]; [done |]. destruct e; cbn; by rewrite ?IH. Qed.

Lemma parsed_app t1 t2 : parsed (t1 ++ t2) = parsed t1 ++ parsed t2.
Proof. induction t1 as [| e t1 IH]; [done |]. destruct e; cbn; by rewrite ?IH. Qed.

(** ** [summarizeText] *)

(** The run of [summarizeText] once the key is resolved. *)
Lemma summarizeText_run E P text options userKey key w :
  getApiKey userKey (OPENAI_API_KEY P) = Value key →
  let len := coalesce (peek w options "length") (SummaryLength_STANDARD E) in
  let fmt := coalesce (peek w options "format") (SummaryFormat_NARRATIVE E) in
  let prompt := promptFor len fmt text in
  ∃ o,
    summarizeText E P text options userKey w
    = (match completionsCreate P (trace w ++ [SummarizeText text]) key prompt
       with
       | Value response =>
           Value (match firstContent response with
                  | Some (String _ _ as c) => c
                  | _ => "Could not generate a summary."
                  end)
       | Raise e =>
           Raise (Error ("Failed to summarize text: " +:+ message e))
       end,
       mkWorld (heap w ++ [o]) (files w)
               (trace w ++ [SummarizeText text; Complete key prompt])).
Proof.
  intros Hkey len fmt prompt. subst len fmt prompt.
  unfold summarizeText, defaultApiKey, getSummarizationOptions, promptFor. run.
  rewrite Hkey.
  destruct options as [l |]; eexists; cbn;
    rewrite !list_lookup_middle by done; cbn;
    rewrite !lookup_insert_eq, !lookup_insert_ne, !lookup_insert_eq by done;
    cbn; rewrite <- app_assoc; cbn;
    destruct (completionsCreate P _ _ _); reflexivity.
Qed.

(** X5: when the completion service fails, [summarizeText] fails with a
    plain [Error] whose message is ['Failed to summarize text: '] followed by
    the message of the service. *)
Theorem summarizeText_wraps_service_error E P text options userKey key e w :
  getApiKey userKey (OPENAI_API_KEY P) = Value key →
  (∀ t prompt, completionsCreate P t key prompt = Raise e) →
  (summarizeText E P text options userKey w).1
  = Raise (Error ("Failed to summarize text: " +:+ message e)).
Proof.
  intros Hkey Hfail.
  destruct (summarizeText_run E P text options userKey key w Hkey) as [o ->].
  cbn. by rewrite Hfail.
Qed.

Lemma summarizeText_wraps_service_error_witness :
  (summarizeText Examples.enums
     (mkProviders None "/app" (λ _ _, Value [])
        (λ _ _ out fs, (Value (), out :: fs)) (λ _ _ _, Value "")
        (λ _ _ _, Raise (ProviderError "429 rate limit"))
        (λ _ _, Value "") (λ _ _, Value "") (λ _, "k3x9"))
     "some text" None (Some "sk-user") Examples.emptyWorld).1
  = Raise (Error "Failed to summarize text: 429 rate limit").
Proof.
  apply (summarizeText_wraps_service_error _ _ _ _ _ "sk-user"
           (ProviderError "429 rate limit")); reflexivity.
Defined.

(** X6: when the completion service answers with a non-empty content in
    its first choice, [summarizeText] returns exactly that content. *)
Theorem summarizeText_returns_content E P text options userKey key response
    c w :
  getApiKey userKey (OPENAI_API_KEY P) = Value key →
  (∀ t prompt, completionsCreate P t key prompt = Value response) →
  firstContent response = Some c → c ≠ "" →
  (summarizeText E P text options userKey w).1 = Value c.
Proof.
  intros Hkey Hresp Hc Hne.
  destruct (summarizeText_run E P text options userKey key w Hkey) as [o ->].
  cbn. rewrite Hresp, Hc. by destruct c.
Qed.

Lemma summarizeText_returns_content_witness :
  (summarizeText Examples.enums (Examples.healthy []) "some text" None None
     Examples.emptyWorld).1 = Value "a summary".
Proof.
  apply (summarizeText_returns_content _ _ _ _ _ "sk-default"
           (Examples.reply (Some "a summary"))); [reflexivity.. | done].
Defined.

(** X7: with a usable key, [summarizeText] calls the completion service
    exactly once, with that key and with the prompt built from the text and
    from the resolved options: the length and the format of [options] when
    present, the defaults [STANDARD] and [NARRATIVE] otherwise.  It leaves
    the files alone. *)
Theorem summarizeText_prompt E P text options userKey key w :
  getApiKey userKey (OPENAI_API_KEY P) = Value key →
  let r := summarizeText E P text options userKey w in
  trace r.2
  = trace w
    ++ [SummarizeText text;
        Complete key
          (promptFor
             (coalesce (peek w options "length") (SummaryLength_STANDARD E))
             (coalesce (peek w options "format") (SummaryFormat_NARRATIVE E))
             text)]
  ∧ files r.2 = files w.
Proof.
  intros Hkey r. subst r.
  by destruct (summarizeText_run E P text options userKey key w Hkey) as [o ->].
Qed.

Lemma summarizeText_prompt_witness :
  let w := mkWorld [{["length" := VStr "short"]}] [] [] in
  completed (trace (summarizeText Examples.enums (Examples.healthy [])
                      "Once upon a time" (Some 0) None w).2)
  = ["Summarize the following text in a short format, in narrative style:"
     +:+ newline +:+ newline +:+ "Once upon a time"].
Proof.
  intros w.
  destruct (summarizeText_prompt Examples.enums (Examples.healthy [])
              "Once upon a time" (Some 0) None "sk-default" w eq_refl)
    as [-> _].
  reflexivity.
Defined.

(** X8: without a usable key (neither the caller's nor the default one),
    [summarizeText] fails with the [BadRequestException] of [getApiKey], not
    wrapped, and the completion service is not called. *)
Theorem summarizeText_missing_key E P text options userKey w :
  truthy userKey = false → truthy (OPENAI_API_KEY P) = false →
  summarizeText E P text options userKey w
  = (Raise (BadRequestException "API key is required"),
     mkWorld (heap w) (files w) (trace w ++ [SummarizeText text])).
Proof.
  intros Hu Hd. unfold summarizeText, defaultApiKey. run.
  by destruct userKey as [[|] |], (OPENAI_API_KEY P) as [[|] |].
Qed.

Lemma summarizeText_missing_key_witness :
  summarizeText Examples.enums (Examples.answering (Some "a summary"))
    "some text" None (Some "") Examples.emptyWorld
  = (Raise (BadRequestException "API key is required"),
     mkWorld [] [] [SummarizeText "some text"]).
Proof.
  apply (summarizeText_missing_key Examples.enums
           (Examples.answering (Some "a summary"))); reflexivity.
Defined.

(** ** [transcribeAudio] *)

(** X9: without a usable key, [transcribeAudio] fails with the
    [BadRequestException] of [getApiKey] and does nothing else: the
    speech-to-text service is not called. *)
Theorem transcribeAudio_missing_key P audioPath userKey w :
  truthy userKey = false → truthy (OPENAI_API_KEY P) = false →
  transcribeAudio P audioPath userKey w
  = (Raise (BadRequestException "API key is required"), w).
Proof.
  intros Hu Hd. unfold transcribeAudio, defaultApiKey. run.
  by destruct userKey as [[|] |], (OPENAI_API_KEY P) as [[|] |].
Qed.

Lemma transcribeAudio_missing_key_witness :
  transcribeAudio (Examples.answering None) "/app/downloads/k3x9.mp3" None
    Examples.emptyWorld
  = (Raise (BadRequestException "API key is required"), Examples.emptyWorld).
Proof.
  apply (transcribeAudio_missing_key (Examples.answering None)); reflexivity.
Defined.

(** X10: with a usable key, [transcribeAudio] calls the speech-to-text
    service once, for the given file and with that key; it returns the text
    of the answer, and when the service fails it fails with a plain [Error]
    whose message is ['Failed to transcribe audio: '] followed by the message
    of the service. *)
Theorem transcribeAudio_outcome P audioPath userKey key w :
  getApiKey userKey (OPENAI_API_KEY P) = Value key →
  transcribeAudio P audioPath userKey w
  = (match transcriptionsCreate P (trace w) key audioPath with
     | Value text => Value text
     | Raise e =>
         Raise (Error ("Failed to transcribe audio: " +:+ message e))
     end,
     mkWorld (heap w) (files w) (trace w ++ [Transcribe key audioPath])).
Proof.
  intros Hkey. unfold transcribeAudio, defaultApiKey. run. rewrite Hkey.
  by destruct (transcriptionsCreate P _ _ _).
Qed.

Lemma transcribeAudio_outcome_witness :
  (transcribeAudio Examples.whisperDown "/app/downloads/k3x9.mp3"
     (Some "sk-user") Examples.emptyWorld).1
  = Raise (Error "Failed to transcribe audio: 503 Service Unavailable").
Proof.
  rewrite (transcribeAudio_outcome Examples.whisperDown
             "/app/downloads/k3x9.mp3" (Some "sk-user") "sk-user"
             Examples.emptyWorld eq_refl).
  reflexivity.
Defined.

(** ** [downloadAudio] *)

(** X11: [downloadAudio] runs the download tool once, on the path made
    of the download directory, the generated prefix and [.mp3].  It succeeds,
    with that path, exactly when the tool succeeds and the file exists
    afterwards; every failure, also that of a tool that ends normally without
    writing the file, is reported as the same [Error('Failed to download
    audio')]. *)
Theorem downloadAudio_outcome P videoUrl w :
  let path := audioPathIn P w in
  let r := downloadAudio P videoUrl w in
  trace r.2 = trace w ++ [Download videoUrl path]
  ∧ heap r.2 = heap w
  ∧ files r.2 = (ytdlp P (trace w) videoUrl path (files w)).2
  ∧ (r.1 = Value path
     ∨ r.1 = Raise (Error "Failed to download audio"))
  ∧ (r.1 = Value path
     ↔ (ytdlp P (trace w) videoUrl path (files w)).1 = Value ()
       ∧ path ∈ files r.2).
Proof.
  intros path r. subst path r. unfold downloadAudio, audioPathIn. run.
  destruct (ytdlp P _ _ _ _) as [[[] | e] fs]; cbn.
  - case_bool_decide; cbn; repeat split; auto; try done.
    + intros [_ ?]. done.
  - repeat split; auto; try done. by intros [? _].
Qed.

(** ** [fetchYouTubeTranscript] *)

(** X12: when the transcript service fails, [fetchYouTubeTranscript]
    fails with a plain [Error] whose message is ['Could not fetch transcript
    from YouTube: '] followed by the message of the service. *)
Theorem fetchYouTubeTranscript_wraps_error P videoId e w :
  fetchTranscript P (trace w) videoId = Raise e →
  fetchYouTubeTranscript P videoId w
  = (Raise (Error ("Could not fetch transcript from YouTube: "
                   +:+ message e)),
     mkWorld (heap w) (files w) (trace w ++ [FetchTranscript videoId])).
Proof.
  intros H. unfold fetchYouTubeTranscript. run. by rewrite H.
Qed.

Lemma fetchYouTubeTranscript_wraps_error_witness :
  (fetchYouTubeTranscript Examples.whisperDown "abcdefghijk"
     Examples.emptyWorld).1
  = Raise (Error ("Could not fetch transcript from YouTube: "
                  +:+ "Transcript is disabled on this video")).
Proof.
  by rewrite (fetchYouTubeTranscript_wraps_error Examples.whisperDown
                "abcdefghijk"
                (ProviderError "Transcript is disabled on this video")
                Examples.emptyWorld eq_refl).
Defined.

(** X13: a transcript within the budget, at most 3750 space-separated
    pieces, is returned whole: the trimmed, non-empty segments joined with
    single spaces. *)
Theorem fetchYouTubeTranscript_within_budget P videoId items w :
  fetchTranscript P (trace w) videoId = Value items →
  length (split " " (fullTranscript items)) ≤ 3750 →
  (fetchYouTubeTranscript P videoId w).1 = Value (fullTranscript items).
Proof.
  intros Hfetch Hlen. unfold fetchYouTubeTranscript. run. rewrite Hfetch.
  cbn. f_equal. unfold joinTranscript, slice0.
  rewrite safeLength_value, take_ge by done. apply join_split.
Qed.

Lemma fetchYouTubeTranscript_within_budget_witness :
  (fetchYouTubeTranscript
     (Examples.healthy ["  never gonna "; "   "; "give you up"])
     "dQw4w9WgXcQ" Examples.emptyWorld).1
  = Value "never gonna give you up".
Proof.
  rewrite (fetchYouTubeTranscript_within_budget
             (Examples.healthy ["  never gonna "; "   "; "give you up"])
             "dQw4w9WgXcQ" ["  never gonna "; "   "; "give you up"]
             Examples.emptyWorld eq_refl).
  - reflexivity.
  - vm_compute. lia.
Defined.

(** ** The video pipeline *)

(** What a step adds to the trace. *)
Lemma summarizeText_adds E P text options key w :
  ∃ extra, trace (summarizeText E P text options key w).2 = trace w ++ extra
           ∧ fetched extra = [] ∧ downloaded extra = [].
Proof.
  unfold summarizeText, getSummarizationOptions. run.
  destruct (getApiKey key (defaultApiKey P)) as [k | e]; cbn.
  - destruct options; cbn; destruct (completionsCreate P _ k _); cbn;
      rewrite <- app_assoc; eexists; (split; [reflexivity | done]).
  - eexists; (split; [reflexivity | done]).
Qed.

Lemma transcribeAudio_adds P audioPath key w :
  ∃ extra, trace (transcribeAudio P audioPath key w).2 = trace w ++ extra
           ∧ fetched extra = [] ∧ downloaded extra = [].
Proof.
  unfold transcribeAudio. run.
  destruct (getApiKey key (defaultApiKey P)) as [k | e]; cbn.
  - destruct (transcriptionsCreate P _ _ _); cbn;
      eexists; (split; [reflexivity | done]).
  - exists []. by rewrite app_nil_r.
Qed.

Lemma downloadAudio_adds P url w :
  trace (downloadAudio P url w).2
  = trace w ++ [Download url (audioPathIn P w)].
Proof.
  unfold downloadAudio, audioPathIn. run.
  destruct (ytdlp P _ _ _ _) as [[[] | e] fs]; cbn; [| done].
  by case_bool_decide.
Qed.

(** The audio branch downloads once and never asks for a transcript. *)
Lemma summarizeYouTubeVideoUsingAudio_adds E P url options key w :
  ∃ extra,
    trace (summarizeYouTubeVideoUsingAudio E P url options key w).2
    = trace w ++ extra
    ∧ fetched extra = []
    ∧ downloaded extra = [(url, audioPathIn P w)].
Proof.
  unfold summarizeYouTubeVideoUsingAudio. run.
  pose proof (downloadAudio_adds P url w) as Hd.
  destruct (downloadAudio P url w) as [[audioPath | e1] w1]; cbn in *;
    [| eexists; split; [exact Hd | done]].
  destruct (transcribeAudio_adds P audioPath key w1) as (x2 & H2 & Hf2 & Hd2).
  destruct (transcribeAudio P audioPath key w1) as [[text | e2] w2];
    cbn in *.
  - destruct (summarizeText_adds E P text options key w2)
      as (x3 & H3 & Hf3 & Hd3).
    destruct (summarizeText E P text options key w2) as [[sm | e3] w3];
      cbn in *; rewrite H3, H2, Hd, <- !app_assoc;
      (eexists; split; [reflexivity |]);
      by rewrite !fetched_app, !downloaded_app, Hf2, Hf3, Hd2, Hd3.
  - rewrite H2, Hd, <- !app_assoc.
    eexists; split; [reflexivity |].
    by rewrite !fetched_app, !downloaded_app, Hf2, Hd2.
Qed.

(** X14: for a valid URL without an extractable identifier the request
    goes straight to the audio branch: the download tool is run once, on this
    URL, and the transcript service is never asked. *)
Theorem summarizeYouTubeVideo_without_id E P url optionsDto key w :
  isValidYouTubeUrl url = true → extractVideoId url = None →
  let r := summarizeYouTubeVideo E P url optionsDto key w in
  fetched (trace r.2) = fetched (trace w)
  ∧ downloaded (trace r.2)
    = downloaded (trace w) ++ [(url, audioPathIn P w)].
Proof.
  intros Hvalid Hid r. subst r. unfold summarizeYouTubeVideo.
  rewrite Hvalid, Hid. cbn [negb truthy]. cbv [mbind M_bind].
  destruct (getSummarizationOptions_run E optionsDto w) as [o ->].
  run.
  destruct (summarizeYouTubeVideoUsingAudio_adds E P url
              (Some (length (heap w))) key
              (mkWorld (heap w ++ [o]) (files w) (trace w)))
    as (extra & Ht & Hf & Hd).
  destruct (summarizeYouTubeVideoUsingAudio E P url _ key _)
    as [[v | e] w2]; cbn in *; rewrite Ht, fetched_app, downloaded_app, Hf, Hd;
    by rewrite app_nil_r.
Qed.

Lemma summarizeYouTubeVideo_without_id_witness :
  let r := summarizeYouTubeVideo Examples.enums (Examples.healthy ["hello"])
             "https://www.youtube.com/playlist?list=PL123" None None
             Examples.emptyWorld in
  fetched (trace r.2) = []
  ∧ downloaded (trace r.2)
    = [("https://www.youtube.com/playlist?list=PL123",
        "/app/downloads/k3x9.mp3")].
Proof.
  apply (summarizeYouTubeVideo_without_id Examples.enums
           (Examples.healthy ["hello"])
           "https://www.youtube.com/playlist?list=PL123" None None
           Examples.emptyWorld); reflexivity.
Defined.

(** For a valid URL with an identifier, the request is the direct
    branch (fetch the transcript, summarize it) when that succeeds.  When the
    direct branch fails at either step, its error is dropped and the outcome
    of the request is the outcome of the audio branch, run in the world the
    direct branch left, with nothing wrapped around it. *)
Lemma summarizeYouTubeVideo_branches E P url id optionsDto key w :
  isValidYouTubeUrl url = true → extractVideoId url = Some id →
  ∃ o,
    let options := Some (length (heap w)) in
    let direct := directBranch E P id options key (withObject w o) in
    summarizeYouTubeVideo E P url optionsDto key w
    = match direct.1 with
      | Value v => direct
      | Raise _ =>
          summarizeYouTubeVideoUsingAudio E P url options key direct.2
      end.
Proof.
  intros Hvalid Hid.
  destruct (getSummarizationOptions_run E optionsDto w) as [o Ho].
  exists o. cbv zeta. unfold summarizeYouTubeVideo, directBranch, withObject.
  rewrite Hvalid, Hid, (isId_truthy id (extractVideoId_isId url id Hid)).
  cbn [negb]. change (default "" (Some id)) with id.
  cbv [mbind M_bind]. rewrite Ho. run.
  destruct (fetchYouTubeTranscript P id _) as [[text | e1] w2]; cbn.
  - destruct (summarizeText E P text _ key w2) as [[sm | e2] w3]; cbn;
      [done |].
    by destruct (summarizeYouTubeVideoUsingAudio E P url _ key w3)
      as [[v | e3] w4].
  - by destruct (summarizeYouTubeVideoUsingAudio E P url _ key w2)
      as [[v | e3] w4].
Qed.

(** X15: for a valid URL with an identifier, the request is the direct
    branch (fetch the transcript, summarize it) when that succeeds.  When the
    direct branch fails at either step, its error is dropped and the outcome
    of the request is the outcome of the audio branch, run in the world the
    direct branch left, with nothing wrapped around it.  Either way the
    direct branch asked the transcript service once, for that identifier,
    and downloaded nothing. *)
Theorem summarizeYouTubeVideo_fallback E P url id optionsDto key w :
  isValidYouTubeUrl url = true → extractVideoId url = Some id →
  ∃ o,
    let options := Some (length (heap w)) in
    let direct := directBranch E P id options key (withObject w o) in
    summarizeYouTubeVideo E P url optionsDto key w
    = match direct.1 with
      | Value v => direct
      | Raise _ =>
          summarizeYouTubeVideoUsingAudio E P url options key direct.2
      end
    ∧ fetched (trace direct.2) = fetched (trace w) ++ [id]
    ∧ downloaded (trace direct.2) = downloaded (trace w).
Proof.
  intros Hvalid Hid.
  destruct (summarizeYouTubeVideo_branches E P url id optionsDto key w
              Hvalid Hid) as [o Ho].
  exists o. cbv zeta in *. split; [exact Ho |].
  unfold directBranch, withObject, fetchYouTubeTranscript.
  cbv [mbind M_bind]. run. cbn.
  destruct (fetchTranscript P (trace w) id) as [items | e]; cbn.
  - set (w2 := mkWorld _ _ _).
    destruct (summarizeText_adds E P (joinTranscript items)
                (Some (length (heap w))) key w2) as (x & Hx & Hf & Hd).
    destruct (summarizeText E P _ _ key w2) as [[sm | e2] w3]; cbn in *;
      rewrite Hx, !fetched_app, !downloaded_app, Hf, Hd; cbn;
      by rewrite !app_nil_r.
  - rewrite fetched_app, downloaded_app. cbn. by rewrite app_nil_r.
Qed.

Lemma summarizeYouTubeVideo_fallback_witness :
  (summarizeYouTubeVideo Examples.enums
     (Examples.healthy ["never gonna"; "give you up"])
     "https://www.youtube.com/watch?v=dQw4w9WgXcQ" None None
     Examples.emptyWorld).1
  = Value (mkVideoSummary "never gonna give you up" "a summary").
Proof.
  destruct (summarizeYouTubeVideo_fallback Examples.enums
              (Examples.healthy ["never gonna"; "give you up"])
              "https://www.youtube.com/watch?v=dQw4w9WgXcQ" "dQw4w9WgXcQ"
              None None Examples.emptyWorld eq_refl eq_refl) as (o & -> & _).
  reflexivity.
Defined.

Lemma fetchYouTubeTranscript_value P videoId items w :
  fetchTranscript P (trace w) videoId = Value items →
  fetchYouTubeTranscript P videoId w
  = (Value (joinTranscript items),
     mkWorld (heap w) (files w) (trace w ++ [FetchTranscript videoId])).
Proof. intros H. unfold fetchYouTubeTranscript. run. by rewrite H. Qed.

(** The direct branch again, with the length and the format of the options
    object that the request resolved. *)
Lemma summarizeYouTubeVideo_direct_run E P url id optionsDto key w :
  isValidYouTubeUrl url = true → extractVideoId url = Some id →
  ∃ o,
    o !! "length"
    = Some (coalesce (peek w optionsDto "length") (SummaryLength_STANDARD E))
    ∧ o !! "format"
      = Some (coalesce (peek w optionsDto "format") (SummaryFormat_NARRATIVE E))
    ∧ let options := Some (length (heap w)) in
      let direct := directBranch E P id options key (withObject w o) in
      summarizeYouTubeVideo E P url optionsDto key w
      = match direct.1 with
        | Value v => direct
        | Raise _ =>
            summarizeYouTubeVideoUsingAudio E P url options key direct.2
        end.
Proof.
  intros Hvalid Hid.
  assert (Ho : ∃ o,
    getSummarizationOptions E optionsDto w
    = (Value (length (heap w)), mkWorld (heap w ++ [o]) (files w) (trace w))
    ∧ o !! "length"
      = Some (coalesce (peek w optionsDto "length") (SummaryLength_STANDARD E))
    ∧ o !! "format"
      = Some (coalesce (peek w optionsDto "format")
                (SummaryFormat_NARRATIVE E))).
  { destruct optionsDto; eexists;
      (split; [unfold getSummarizationOptions; run; reflexivity |]);
      split; by simplify_map_eq. }
  destruct Ho as (o & Ho & Hlen & Hfmt).
  exists o. split; [exact Hlen |]. split; [exact Hfmt |].
  cbv zeta. unfold summarizeYouTubeVideo, directBranch, withObject.
  rewrite Hvalid, Hid, (isId_truthy id (extractVideoId_isId url id Hid)).
  cbn [negb]. change (default "" (Some id)) with id.
  cbv [mbind M_bind]. rewrite Ho. run.
  destruct (fetchYouTubeTranscript P id _) as [[text | e1] w2]; cbn.
  - destruct (summarizeText E P text _ key w2) as [[sm | e2] w3]; cbn;
      [done |].
    by destruct (summarizeYouTubeVideoUsingAudio E P url _ key w3)
      as [[v | e3] w4].
  - by destruct (summarizeYouTubeVideoUsingAudio E P url _ key w2)
      as [[v | e3] w4].
Qed.

(** X16: when the direct branch succeeds, the result carries the
    truncated transcript together with the summary that [summarizeText]
    returned for it: the content of the first choice of the completion when
    that is a non-empty string, the placeholder otherwise.  The transcript is
    fetched once, for the identifier of the URL; the completion service is
    asked once, with the prompt built from that transcript and from the
    resolved length and format; nothing is downloaded and the files are left
    alone. *)
Theorem summarizeYouTubeVideo_direct E P url id optionsDto userKey key items
    response w :
  isValidYouTubeUrl url = true → extractVideoId url = Some id →
  fetchTranscript P (trace w) id = Value items →
  getApiKey userKey (OPENAI_API_KEY P) = Value key →
  (∀ t prompt, completionsCreate P t key prompt = Value response) →
  let r := summarizeYouTubeVideo E P url optionsDto userKey w in
  let transcript := joinTranscript items in
  let len :=
    coalesce (peek w optionsDto "length") (SummaryLength_STANDARD E) in
  let fmt :=
    coalesce (peek w optionsDto "format") (SummaryFormat_NARRATIVE E) in
  (∀ c, firstContent response = Some c → c ≠ "" →
        r.1 = Value (mkVideoSummary transcript c))
  ∧ (truthy (firstContent response) = false →
     r.1 = Value (mkVideoSummary transcript "Could not generate a summary."))
  ∧ fetched (trace r.2) = fetched (trace w) ++ [id]
  ∧ summarized (trace r.2) = summarized (trace w) ++ [transcript]
  ∧ completed (trace r.2)
    = completed (trace w) ++ [promptFor len fmt transcript]
  ∧ downloaded (trace r.2) = downloaded (trace w)
  ∧ files r.2 = files w.
Proof.
  intros Hvalid Hid Hfetch Hkey Hresp r transcript len fmt.
  subst r transcript len fmt.
  destruct (summarizeYouTubeVideo_direct_run E P url id optionsDto userKey w
              Hvalid Hid) as (o & Hlen & Hfmt & ->).
  unfold directBranch, withObject. cbv [mbind M_bind mret M_ret].
  rewrite (fetchYouTubeTranscript_value P id items
             (mkWorld (heap w ++ [o]) (files w) (trace w)) Hfetch).
  cbn [heap files trace].
  destruct (summarizeText_run E P (joinTranscript items)
              (Some (length (heap w))) userKey key
              (mkWorld (heap w ++ [o]) (files w)
                       (trace w ++ [FetchTranscript id])) Hkey) as [o2 ->].
  rewrite Hresp. cbn.
  rewrite !fetched_app, !summarized_app, !completed_app, !downloaded_app. cbn.
  rewrite !app_nil_r, list_lookup_middle by done. cbn.
  rewrite Hlen, Hfmt. cbn. rewrite !coalesce_idem.
  split; [by intros c -> ?; destruct c |].
  split; [by destruct (firstContent response) as [[|] |] |].
  done.
Qed.

Lemma summarizeYouTubeVideo_direct_witness :
  let r := summarizeYouTubeVideo Examples.enums
             (Examples.healthy ["never gonna"; "give you up"])
             "https://www.youtube.com/watch?v=dQw4w9WgXcQ" None None
             Examples.emptyWorld in
  r.1 = Value (mkVideoSummary "never gonna give you up" "a summary")
  ∧ fetched (trace r.2) = [] ++ ["dQw4w9WgXcQ"]
  ∧ completed (trace r.2)
    = [] ++ ["Summarize the following text in a standard format, in narrative style:"
             +:+ newline +:+ newline +:+ "never gonna give you up"]
  ∧ downloaded (trace r.2) = []
  ∧ files r.2 = [].
Proof.
  destruct (summarizeYouTubeVideo_direct Examples.enums
              (Examples.healthy ["never gonna"; "give you up"])
              "https://www.youtube.com/watch?v=dQw4w9WgXcQ" "dQw4w9WgXcQ"
              None None "sk-default" ["never gonna"; "give you up"]
              (Examples.reply (Some "a summary")) Examples.emptyWorld
              eq_refl eq_refl eq_refl eq_refl (λ _ _, eq_refl))
    as (H0 & _ & H1 & _ & H2 & H3 & H4).
  exact (conj (H0 "a summary" eq_refl ltac:(discriminate))
           (conj H1 (conj H2 (conj H3 H4)))).
Defined.

Lemma downloadAudio_result P url w :
  (∃ path, (downloadAudio P url w).1 = Value path)
  ∨ (downloadAudio P url w).1 = Raise (Error "Failed to download audio").
Proof.
  unfold downloadAudio. run.
  destruct (ytdlp P _ _ _ _) as [[[] | e] fs]; cbn; [| by right].
  case_bool_decide; cbn; eauto.
Qed.

Lemma summarizeText_missing_key_run E P text options userKey w :
  truthy userKey = false → truthy (OPENAI_API_KEY P) = false →
  summarizeText E P text options userKey w
  = (Raise (BadRequestException "API key is required"),
     mkWorld (heap w) (files w) (trace w ++ [SummarizeText text])).
Proof.
  intros Hu Hd. unfold summarizeText, defaultApiKey. run.
  by destruct userKey as [[|] |], (OPENAI_API_KEY P) as [[|] |].
Qed.

Lemma transcribeAudio_missing_key_run P audioPath userKey w :
  truthy userKey = false → truthy (OPENAI_API_KEY P) = false →
  transcribeAudio P audioPath userKey w
  = (Raise (BadRequestException "API key is required"), w).
Proof.
  intros Hu Hd. unfold transcribeAudio, defaultApiKey. run.
  by destruct userKey as [[|] |], (OPENAI_API_KEY P) as [[|] |].
Qed.

(** Without a usable key the audio branch still downloads, and fails
    afterwards. *)
Lemma summarizeYouTubeVideoUsingAudio_missing_key E P url options userKey w :
  truthy userKey = false → truthy (OPENAI_API_KEY P) = false →
  ∃ m, (summarizeYouTubeVideoUsingAudio E P url options userKey w).1
       = Raise (Error ("Failed to summarize video using audio: " +:+ m))
       ∧ (m = "API key is required" ∨ m = "Failed to download audio").
Proof.
  intros Hu Hd. unfold summarizeYouTubeVideoUsingAudio. run.
  pose proof (downloadAudio_result P url w) as Hr.
  destruct (downloadAudio P url w) as [[audioPath | e1] w1]; cbn in *.
  - rewrite (transcribeAudio_missing_key_run P audioPath userKey w1 Hu Hd).
    cbn. eauto.
  - destruct Hr as [[? Hr] | Hr]; [done |]. simplify_eq. cbn. eauto.
Qed.

(** X17: without a usable key, a request for a valid URL still runs the
    download tool, once, before it fails; the failure is the plain [Error] of
    the audio branch, about the missing key or about the download. *)
Theorem summarizeYouTubeVideo_missing_key E P url optionsDto userKey w :
  isValidYouTubeUrl url = true →
  truthy userKey = false → truthy (OPENAI_API_KEY P) = false →
  let r := summarizeYouTubeVideo E P url optionsDto userKey w in
  (∃ m, r.1 = Raise (Error ("Failed to summarize video using audio: " +:+ m))
        ∧ (m = "API key is required" ∨ m = "Failed to download audio"))
  ∧ length (downloaded (trace r.2)) = S (length (downloaded (trace w))).
Proof.
  intros Hvalid Hu Hd r. subst r.
  destruct (extractVideoId url) as [id |] eqn:Hid.
  - destruct (summarizeYouTubeVideo_branches E P url id optionsDto userKey w
                Hvalid Hid) as [o ->]. cbv zeta.
    set (l := Some (length (heap w))).
    assert (Hdirect : ∃ e t,
              directBranch E P id l userKey (withObject w o)
              = (Raise e,
                 mkWorld (heap w ++ [o]) (files w) (trace w ++ t))
              ∧ downloaded t = []).
    { unfold directBranch, withObject. cbv [mbind M_bind].
      unfold fetchYouTubeTranscript. run. cbn.
      destruct (fetchTranscript P (trace w) id) as [items | e]; cbn.
      - rewrite summarizeText_missing_key_run by done. cbn.
        rewrite <- app_assoc. eauto.
      - eauto. }
    destruct Hdirect as (e & t & -> & Ht). cbn [fst snd].
    set (w2 := mkWorld _ _ _).
    split; [by apply summarizeYouTubeVideoUsingAudio_missing_key |].
    destruct (summarizeYouTubeVideoUsingAudio_adds E P url l userKey w2)
      as (extra & -> & _ & Hx).
    subst w2. cbn. rewrite !downloaded_app, Ht, Hx, !length_app. cbn. lia.
  - unfold summarizeYouTubeVideo. rewrite Hvalid, Hid. cbn [negb truthy].
    cbv [mbind M_bind].
    destruct (getSummarizationOptions_run E optionsDto w) as [o ->]. run.
    set (l := Some (length (heap w))). set (w1 := mkWorld _ _ _).
    destruct (summarizeYouTubeVideoUsingAudio_missing_key E P url l userKey
                w1 Hu Hd) as (m & Hm & Hcases).
    destruct (summarizeYouTubeVideoUsingAudio_adds E P url l userKey w1)
      as (extra & Hextra & _ & Hx).
    destruct (summarizeYouTubeVideoUsingAudio E P url l userKey w1)
      as [r w2]; cbn in *. subst r.
    split; [eauto |]. rewrite Hextra, downloaded_app, Hx, length_app. cbn. lia.
Qed.

Lemma summarizeYouTubeVideo_missing_key_witness :
  let r := summarizeYouTubeVideo Examples.enums (Examples.answering None)
             "https://www.youtube.com/watch?v=dQw4w9WgXcQ" None None
             Examples.emptyWorld in
  length (downloaded (trace r.2)) = 1.
Proof.
  apply (summarizeYouTubeVideo_missing_key Examples.enums
           (Examples.answering None)
           "https://www.youtube.com/watch?v=dQw4w9WgXcQ" None None
           Examples.emptyWorld eq_refl eq_refl eq_refl).
Defined.

(** ** File uploads *)

(** The scan finds no dot where there is none. *)
Lemma extLoop_no_dot rs st :
  allChars (λ c, negb (Ascii.eqb c ".")) rs = true →
  Path.startDot st = None →
  Path.startDot (Path.extLoop rs st) = None.
Proof.
  revert st. induction rs as [| c rs IH]; intros st Hrs Hst; [done |].
  cbn in Hrs. apply andb_true_iff in Hrs as [Hc Hrs].
  apply negb_true_iff in Hc. cbn [Path.extLoop]. rewrite Hc.
  destruct (Ascii.eqb c "/").
  - destruct (negb _); [done | by apply IH].
  - apply IH; [done |]. destruct (Path.endAt st); cbn; by rewrite Hst.
Qed.

Lemma extname_no_dot name :
  allChars (λ c, negb (Ascii.eqb c ".")) name = true →
  Path.extname name = "".
Proof.
  intros H. unfold Path.extname.
  rewrite extLoop_no_dot; [done | by rewrite allChars_rev | done].
Qed.

(** A name that is a dot followed by plain characters has no extension. *)
Lemma extname_dotfile body :
  allChars plainChar body = true → Path.extname ("." +:+ body) = "".
Proof.
  intros Hbody. unfold Path.extname.
  rewrite app_cons_s, app_nil_l_s, rev_cons_s.
  destruct (String.rev body) as [| y r] eqn:Hrev.
  - reflexivity.
  - assert (Hr : allChars plainChar (String y r) = true).
    { by rewrite <- Hrev, allChars_rev. }
    cbn in Hr. apply andb_true_iff in Hr as [Hy Hr].
    pose proof Hy as Hy'. unfold plainChar in Hy'.
    apply negb_true_iff, orb_false_iff in Hy' as [Hydot Hysl].
    rewrite app_cons_s. cbn [Path.extLoop]. rewrite Hysl, Hydot. cbn.
    erewrite extLoop_plain; [| done | done | done]. reflexivity.
Qed.

(** X18: a file whose name has no dot, or is a dot followed by
    characters other than dots and slashes (such as [.txt] or [.pdf]
    themselves), has no extension for [path.extname], so it is not routed to
    any parser. *)
Theorem extractTextFromFile_needs_stem_and_dot name :
  allChars (λ c, negb (Ascii.eqb c ".")) name = true
  ∨ (∃ body, allChars plainChar body = true ∧ name = "." +:+ body) →
  route name = None.
Proof.
  intros [H | (body & Hbody & ->)]; unfold route.
  - by rewrite extname_no_dot.
  - by rewrite extname_dotfile.
Qed.

Lemma extractTextFromFile_needs_stem_and_dot_witness :
  route "README" = None ∧ route ".txt" = None ∧ route ".PDF" = None.
Proof.
  split; [| split].
  - apply extractTextFromFile_needs_stem_and_dot. by left.
  - apply extractTextFromFile_needs_stem_and_dot. right. by exists "txt".
  - apply extractTextFromFile_needs_stem_and_dot. right. by exists "PDF".
Defined.

(** X19: for a file that is not routed to a parser, [summarizeFile]
    fails with [UnsupportedMediaTypeException]; no parser is invoked and
    [summarizeText] is not reached. *)
Theorem summarizeFile_unsupported E P file optionsDto userKey w :
  route (originalname file) = None →
  let r := summarizeFile E P file optionsDto userKey w in
  r.1 = Raise (UnsupportedMediaTypeException
                 "Unsupported file format. Only PDF, TXT, and DOCX are allowed.")
  ∧ trace r.2 = trace w ∧ files r.2 = files w.
Proof.
  intros Hroute r. subst r. unfold summarizeFile. cbv [mbind M_bind].
  destruct (getSummarizationOptions_run E optionsDto w) as [o ->].
  unfold extractTextFromFile. unfold route in Hroute. by rewrite Hroute.
Qed.

Lemma summarizeFile_unsupported_witness :
  (summarizeFile Examples.enums (Examples.healthy [])
     (mkFile "holiday.png" "image/png" "PNG") None None
     Examples.emptyWorld).1
  = Raise (UnsupportedMediaTypeException
             "Unsupported file format. Only PDF, TXT, and DOCX are allowed.")
  ∧ (summarizeFile Examples.enums (Examples.healthy [])
       (mkFile ".txt" "text/plain" "some notes") None None
       Examples.emptyWorld).1
    = Raise (UnsupportedMediaTypeException
               "Unsupported file format. Only PDF, TXT, and DOCX are allowed.").
Proof.
  split.
  - apply (summarizeFile_unsupported Examples.enums (Examples.healthy [])
             (mkFile "holiday.png" "image/png" "PNG") None None
             Examples.emptyWorld eq_refl).
  - apply (summarizeFile_unsupported Examples.enums (Examples.healthy [])
             (mkFile ".txt" "text/plain" "some notes") None None
             Examples.emptyWorld eq_refl).
Defined.

(** X20: when the PDF or DOCX parser fails, [summarizeFile] fails with the
    parser's own exception, as it is (it is not turned into a
    [BadRequestException]), and [summarizeText] is not reached. *)
Theorem summarizeFile_parser_failure E P file optionsDto userKey e w :
  (route (originalname file) = Some Pdf
   ∧ extractTextFromPdf P (trace w) file = Raise e)
  ∨ (route (originalname file) = Some Docx
     ∧ extractTextFromDocx P (trace w) file = Raise e) →
  let r := summarizeFile E P file optionsDto userKey w in
  r.1 = Raise e
  ∧ parsed (trace r.2) = parsed (trace w) ++ [originalname file]
  ∧ summarized (trace r.2) = summarized (trace w).
Proof.
  intros Hfail r. subst r. unfold summarizeFile. cbv [mbind M_bind].
  destruct (getSummarizationOptions_run E optionsDto w) as [o ->].
  unfold extractTextFromFile. unfold route in Hfail.
  destruct Hfail as [[-> Hp] | [-> Hp]]; run; cbn; rewrite Hp; cbn;
    rewrite parsed_app, summarized_app; cbn; by rewrite app_nil_r.
Qed.

Lemma summarizeFile_parser_failure_witness :
  (summarizeFile Examples.enums
     (mkProviders (Some "sk-default") "/app" (λ _ _, Value [])
        (λ _ _ out fs, (Value (), out :: fs)) (λ _ _ _, Value "")
        (λ _ _ _, Value (Examples.reply None))
        (λ _ _, Raise (ProviderError "Invalid PDF structure"))
        (λ _ _, Value "") (λ _, "k3x9"))
     (mkFile "scan.PDF" "application/pdf" "%PDF-") None None
     Examples.emptyWorld).1
  = Raise (ProviderError "Invalid PDF structure").
Proof.
  apply (summarizeFile_parser_failure Examples.enums _
           (mkFile "scan.PDF" "application/pdf" "%PDF-") None None
           (ProviderError "Invalid PDF structure") Examples.emptyWorld).
  left. split; reflexivity.
Defined.

(** ** Options *)

(** X21: the resolved options hold the option fields and nothing else:
    a property of the input object that is not an option field is not
    copied.  This holds for both revisions. *)
Theorem getSummarizationOptions_only_known_fields E options w :
  (let r := getSummarizationOptions E options w in
   ∃ l o, r.1 = Value l ∧ heap r.2 !! l = Some o
          ∧ dom o = {["length"; "format"; "listen"]})
  ∧ (let r := getSummarizationOptions5 E options w in
     ∃ l o, r.1 = Value l ∧ heap r.2 !! l = Some o
            ∧ dom o = {["length"; "format"; "listen"; "model"; "speed"]}).
Proof.
  split; cbv zeta;
    unfold getSummarizationOptions, getSummarizationOptions5; run;
    destruct options; cbn; eexists _, _;
    (split; [reflexivity |]);
    (split; [by apply list_lookup_middle |]);
    rewrite !dom_insert_L, dom_empty_L; set_solver.
Qed.

(** ** URL validation, in full *)

Lemma ytRegex_anchored pos s : searchFrom ytRegex (S pos) s = None.
Proof. revert pos. induction s as [| c s IH]; intros pos; cbn; [done | apply IH]. Qed.

Lemma isValidYouTubeUrl_exec url :
  isValidYouTubeUrl url = true ↔ is_Some (exec ytRegex 0 url [] accept).
Proof.
  unfold isValidYouTubeUrl, test, matchRe.
  destruct url as [| c url]; cbn [searchFrom].
  - destruct (exec ytRegex 0 "" [] accept); split; try done; eauto;
      by intros [? ?].
  - rewrite ytRegex_anchored.
    destruct (exec ytRegex 0 _ [] accept); split; try done; eauto;
      by intros [? ?].
Qed.

Lemma many1_Some_inv {X} p pos s (k : nat → string → option X) :
  is_Some (many1 p pos s k) → ∃ c rest, s = String c rest ∧ p c = true.
Proof.
  destruct s as [| c s]; cbn; [by intros [? ?] |].
  destruct (p c) eqn:Hc; [eauto | by intros [? ?]].
Qed.

Lemma many1_sound {X} p pos s (k : nat → string → option X) :
  is_Some (many1 p pos s k) →
  ∃ c run s' pos', p c = true ∧ allChars p run = true
                   ∧ s = String c run +:+ s' ∧ is_Some (k pos' s').
Proof.
  revert pos. induction s as [| c s IH]; intros pos; cbn [many1];
    [by intros [? ?] |].
  destruct (p c) eqn:Hc; [| by intros [? ?]].
  destruct (many1 p (S pos) s k) eqn:Hm.
  - intros _. destruct (IH (S pos)) as (c' & run & s' & pos' & ? & ? & -> & ?);
      [by rewrite Hm |].
    exists c, (String c' run), s', pos'. cbn.
    repeat split; try done. by apply andb_true_iff.
  - intros H. exists c, "", s, (S pos). eauto.
Qed.

(** What the matcher finds, the pattern can match. *)
Lemma exec_sound r :
  ∀ pos s cs k, is_Some (exec r pos s cs k) →
    ∃ pos' s' cs', lang r s s' ∧ is_Some (k pos' s' cs').
Proof.
  induction r as [| | l | p | r1 IH1 r2 IH2 | r1 IH1 r2 IH2 | r1 IH1
                  | n r1 IH1 | p | i r1 IH1]; intros pos s cs k; cbn [exec lang].
  - destruct (Nat.eqb pos 0); [eauto 6 | by intros [? ?]].
  - destruct s; [eauto 7 | by intros [? ?]].
  - destruct (dropLit l s) as [s' |] eqn:Hl; [| by intros [? ?]].
    apply dropLit_spec in Hl. eauto 6.
  - destruct s as [| c s]; [by intros [? ?] |].
    destruct (p c) eqn:Hc; [eauto 8 | by intros [? ?]].
  - intros H. apply IH1 in H as (p1 & mid & c1 & H1 & H).
    apply IH2 in H as (p2 & s' & c2 & H2 & H). eauto 8.
  - destruct (exec r1 pos s cs k) eqn:He.
    + intros _. destruct (IH1 pos s cs k) as (p1 & s' & c1 & H1 & H);
        [by rewrite He |]. eauto 8.
    + intros H. apply IH2 in H as (p2 & s' & c2 & H2 & H). eauto 8.
  - destruct (exec r1 pos s cs k) eqn:He.
    + intros _. destruct (IH1 pos s cs k) as (p1 & s' & c1 & H1 & H);
        [by rewrite He |]. eauto 8.
    + eauto 8.
  - revert pos s cs. induction n as [| n IHn]; intros pos s cs; [eauto 6 |].
    intros H. apply IH1 in H as (p1 & mid & c1 & H1 & H).
    apply IHn in H as (p2 & s' & c2 & H2 & H). eauto 8.
  - intros H. apply many1_sound in H as (c & run & s' & pos' & ? & ? & ? & ?).
    eauto 10.
  - intros H. apply IH1 in H as (p1 & s' & c1 & H1 & H). eauto 8.
Qed.

Ltac shape sc ww ho c rest :=
  exists sc, ww, ho, c, rest;
  split; [set_solver |]; split; [set_solver |]; split; [set_solver |];
  split; [assumption | reflexivity].

Ltac find_shape c rest :=
  first [ shape "" "" "youtube.com" c rest
        | shape "" "" "youtu.be" c rest
        | shape "" "" "youtube" c rest
        | shape "" "www." "youtube.com" c rest
        | shape "" "www." "youtu.be" c rest
        | shape "" "www." "youtube" c rest
        | shape "http://" "" "youtube.com" c rest
        | shape "http://" "" "youtu.be" c rest
        | shape "http://" "" "youtube" c rest
        | shape "http://" "www." "youtube.com" c rest
        | shape "http://" "www." "youtu.be" c rest
        | shape "http://" "www." "youtube" c rest
        | shape "https://" "" "youtube.com" c rest
        | shape "https://" "" "youtu.be" c rest
        | shape "https://" "" "youtube" c rest
        | shape "https://" "www." "youtube.com" c rest
        | shape "https://" "www." "youtu.be" c rest
        | shape "https://" "www." "youtube" c rest ].

Lemma isValidYouTubeUrl_shape url :
  isValidYouTubeUrl url = true → validShape url.
Proof.
  intros H. apply isValidYouTubeUrl_exec, exec_sound in H
    as (pos' & s' & cs' & H & _).
  cbn [lang ytRegex] in H.
  destruct H as (m0 & -> & m1 & Hscheme & m2 & Hwww & m3 & Hhost & m4 & ->
                 & c & run & Hc & _ & ->).
  destruct Hscheme as [(a & -> & b & [-> | ->] & ->) | ->];
    destruct Hwww as [-> | ->];
    destruct Hhost as [-> | (x & -> & y & [-> | ->] & ->)];
    find_shape c (run +:+ s').
Qed.

Lemma validShape_accepted url : validShape url → isValidYouTubeUrl url = true.
Proof.
  intros (sc & ww & ho & c & rest & Hsc & Hww & Hho & Hc & ->).
  unfold schemes, wwws, hostSpellings in *.
  repeat (apply elem_of_cons in Hsc as [-> | Hsc]);
    try (by apply elem_of_nil in Hsc);
    repeat (apply elem_of_cons in Hww as [-> | Hww]);
    try (by apply elem_of_nil in Hww);
    repeat (apply elem_of_cons in Hho as [-> | Hho]);
    try (by apply elem_of_nil in Hho);
    unfold isValidYouTubeUrl, test, matchRe;
    cbv -[many1 isDot];
    match goal with
    | |- context [many1 ?p ?n (String ?c ?s) ?k] =>
        destruct (many1_accept p n c s k) as [x ->]; [assumption | eauto |]
    end; reflexivity.
Qed.

(** X22: [isValidYouTubeUrl] accepts exactly the strings made of an
    optional [http://] or [https://], an optional [www.], one of the hosts
    [youtube.com], [youtu.be] and [youtube], a slash, and at least one more
    character that is not a line terminator; what follows is not looked
    at. *)
Theorem isValidYouTubeUrl_exactly url :
  isValidYouTubeUrl url = true ↔ validShape url.
Proof.
  split; [apply isValidYouTubeUrl_shape | apply validShape_accepted].
Qed.

Lemma hostOf_validShape url : validShape url → hostOf url ∈ acceptedHosts.
Proof.
  intros (sc & ww & ho & c & rest & Hsc & Hww & Hho & Hc & ->).
  unfold schemes, wwws, hostSpellings, acceptedHosts in *.
  repeat (apply elem_of_cons in Hsc as [-> | Hsc]);
    try (by apply elem_of_nil in Hsc);
    repeat (apply elem_of_cons in Hww as [-> | Hww]);
    try (by apply elem_of_nil in Hww);
    repeat (apply elem_of_cons in Hho as [-> | Hho]);
    try (by apply elem_of_nil in Hho);
    match goal with
    | |- hostOf ?u ∈ _ =>
        let h := eval cbv in (hostOf u) in
        change (hostOf u) with h
    end; set_solver.
Qed.

(** X23: a URL that [isValidYouTubeUrl] accepts has one of six hosts:
    [youtube.com], [youtu.be], [youtube], or one of these after [www.].
    URLs of any other host are rejected. *)
Theorem isValidYouTubeUrl_hosts url :
  isValidYouTubeUrl url = true → hostOf url ∈ acceptedHosts.
Proof. intros H. by apply hostOf_validShape, isValidYouTubeUrl_shape. Qed.

Lemma isValidYouTubeUrl_hosts_witness :
  hostOf "http://www.youtu.be/dQw4w9WgXcQ" ∈ acceptedHosts.
Proof. apply isValidYouTubeUrl_hosts. reflexivity. Defined.

(** X24: a request for a URL of any other host fails with
    [BadRequestException('Invalid YouTube URL')] and nothing happens: no
    service is called, nothing is allocated, no file is touched. *)
Theorem summarizeYouTubeVideo_foreign_host E P url optionsDto userKey w :
  hostOf url ∉ acceptedHosts →
  summarizeYouTubeVideo E P url optionsDto userKey w
  = (Raise (BadRequestException "Invalid YouTube URL"), w).
Proof.
  intros Hhost. unfold summarizeYouTubeVideo.
  destruct (isValidYouTubeUrl url) eqn:Hvalid; [| done].
  by apply isValidYouTubeUrl_shape, hostOf_validShape in Hvalid.
Qed.

Lemma summarizeYouTubeVideo_foreign_host_witness :
  summarizeYouTubeVideo Examples.enums (Examples.healthy ["hello"])
    "https://vimeo.com/123" None None Examples.emptyWorld
  = (Raise (BadRequestException "Invalid YouTube URL"), Examples.emptyWorld).
Proof.
  apply summarizeYouTubeVideo_foreign_host.
  cbv [acceptedHosts]. rewrite !elem_of_cons, elem_of_nil.
  intros [H | [H | [H | [H | [H | [H | []]]]]]]; discriminate H.
Defined.

(** ** Video identifiers, in full *)

Lemma matchAt_v_cons id rest :
  isId id = true → endsWith ends1 rest = true →
  matchAt ["v="; "/"] ends1 (String "v" (String "=" (id +:+ rest))) = Some id.
Proof.
  intros Hid Hrest. cbn [matchAt dropLit].
  replace (Ascii.eqb "v" "v") with true by done.
  replace (Ascii.eqb "=" "=") with true by done.
  rewrite <- (isId_length id Hid), takeN_app, Hrest, prefix_app;
    [done | by apply isId_chars].
Qed.

Lemma matchAt_slash_cons id rest :
  isId id = true → endsWith ends1 rest = true →
  matchAt ["v="; "/"] ends1 (String "/" (id +:+ rest)) = Some id.
Proof. intros Hid Hrest. by apply (matchAt_slash id rest). Qed.

Lemma pattern1_at url a id : hasIdAt url a id → is_Some (matchRe pattern1 url).
Proof.
  intros (l & rest & Hl & Hid & Hrest & ->). unfold matchRe.
  destruct (searchFrom pattern1 0 (a +:+ l +:+ id +:+ rest)) eqn:Hs; [eauto |].
  apply searchFrom_None in Hs. rewrite exec_pattern1 in Hs.
  repeat (apply elem_of_cons in Hl as [-> | Hl]);
    try (by apply elem_of_nil in Hl).
  - rewrite !app_cons_s, app_nil_l_s, matchAt_v_cons in Hs; done.
  - rewrite !app_cons_s, app_nil_l_s, matchAt_slash_cons in Hs; done.
Qed.

(** X25: [extractVideoId] finds an identifier exactly when the URL has
    one as the first pattern sees it: eleven characters of [[\w-]] after
    [v=] or after a slash, followed by the end of the URL or by [?], [&] or a
    slash.  The identifier it returns stands at such a place. *)
Theorem extractVideoId_exactly url :
  (is_Some (extractVideoId url) ↔ ∃ a id, hasIdAt url a id)
  ∧ (∀ id, extractVideoId url = Some id → ∃ a, hasIdAt url a id).
Proof.
  assert (Hsome : ∀ id, extractVideoId url = Some id → ∃ a, hasIdAt url a id).
  { intros id. rewrite extractVideoId_pattern1.
    destruct (matchRe pattern1 url) as [cs |] eqn:H1; [| done].
    apply searchFrom_Some in H1 as (a & b & -> & Hb).
    rewrite exec_pattern1 in Hb.
    destruct (matchAt _ ends1 b) as [id' |] eqn:Hm; [| done].
    apply matchAt_Some in Hm as (Hid & l & rest & Hl & -> & Hrest).
    cbn in Hb. simplify_eq. cbn. intros [= <-].
    exists a, l, rest. done. }
  split; [split |]; [| | done].
  - intros [id Hid]. destruct (Hsome id Hid) as [a Ha]. eauto.
  - intros (a & id & Ha). rewrite extractVideoId_pattern1.
    destruct (pattern1_at url a id Ha) as [cs Hcs]. rewrite Hcs.
    apply pattern1_capture in Hcs as (id' & -> & _). cbn. eauto.
Qed.

Ltac skip_to_id :=
  unfold matchRe; rewrite !app_cons_s, !app_nil_l_s;
  repeat (rewrite searchFrom_skip by (rewrite exec_pattern1; reflexivity));
  apply searchFrom_here; rewrite exec_pattern1;
  first [ rewrite matchAt_v_cons by assumption
        | rewrite matchAt_slash_cons by assumption ];
  reflexivity.

Lemma pattern1_videoOpening pre id rest :
  videoOpening pre → isId id = true → endsWith ends1 rest = true →
  matchRe pattern1 (pre +:+ id +:+ rest) = Some [(1, id)].
Proof.
  intros (sc & ww & pa & Hsc & Hww & Hpa & ->) Hid Hrest.
  unfold schemes, wwws, videoPaths in *.
  repeat (apply elem_of_cons in Hsc as [-> | Hsc]);
    try (by apply elem_of_nil in Hsc);
    repeat (apply elem_of_cons in Hww as [-> | Hww]);
    try (by apply elem_of_nil in Hww);
    repeat (apply elem_of_cons in Hpa as [-> | Hpa]);
    try (by apply elem_of_nil in Hpa);
    rewrite !app_assoc_s; skip_to_id.
Qed.

(** X26: for the usual URLs of a video (watch page, short link, shorts
    page, embed page; with or without scheme and [www.]), followed by
    nothing or by more that starts with [?], [&] or a slash,
    [extractVideoId] returns the identifier of the video. *)
Theorem extractVideoId_usual_urls pre id rest :
  videoOpening pre → isId id = true → endsWith ends1 rest = true →
  extractVideoId (pre +:+ id +:+ rest) = Some id.
Proof.
  intros Hpre Hid Hrest.
  by rewrite extractVideoId_pattern1, pattern1_videoOpening.
Qed.

Lemma extractVideoId_usual_urls_witness :
  extractVideoId ("https://www.youtube.com/watch?v=" +:+ "dQw4w9WgXcQ"
                  +:+ "&t=42s") = Some "dQw4w9WgXcQ"
  ∧ extractVideoId ("youtu.be/" +:+ "dQw4w9WgXcQ" +:+ "") = Some "dQw4w9WgXcQ"
  ∧ extractVideoId ("http://youtube.com/shorts/" +:+ "dQw4w9WgXcQ"
                    +:+ "?feature=share") = Some "dQw4w9WgXcQ".
Proof.
  split; [| split].
  - apply extractVideoId_usual_urls; [| done | done].
    exists "https://", "www.", "youtube.com/watch?v=". set_solver.
  - apply extractVideoId_usual_urls; [| done | done].
    exists "", "", "youtu.be/". set_solver.
  - apply extractVideoId_usual_urls; [| done | done].
    exists "http://", "", "youtube.com/shorts/". set_solver.
Defined.

(** ** Errors and files, again *)

Lemma cleanup_skipped_on_failure_witness :
  let w := Examples.emptyWorld in
  let r := summarizeYouTubeVideoUsingAudio Examples.enums Examples.whisperDown
             "https://youtu.be/x" None None w in
  files r.2 = ["/app/downloads/k3x9.mp3"]
  ∧ "/app/downloads/k3x9.mp3" ∈ files r.2.
Proof.
  exact (cleanup_skipped_on_failure Examples.enums Examples.whisperDown
           "https://youtu.be/x" None None Examples.emptyWorld
           "/app/downloads/k3x9.mp3"
           (mkWorld [] ["/app/downloads/k3x9.mp3"]
              [Download "https://youtu.be/x" "/app/downloads/k3x9.mp3"])
           (Error ("Failed to summarize video using audio: "
                   +:+ "Failed to transcribe audio: 503 Service Unavailable"))
           eq_refl eq_refl).
Defined.

Lemma summarizeYouTubeVideo_errors_witness :
  ∃ m, Error ("Failed to summarize video using audio: "
              +:+ "Failed to download audio")
       = Error ("Failed to summarize video using audio: " +:+ m).
Proof.
  destruct (summarizeYouTubeVideo_errors Examples.enums Examples.downloadDown
              "https://www.youtube.com/watch?v=abcdefghijk" None None
              Examples.emptyWorld
              (Error ("Failed to summarize video using audio: "
                      +:+ "Failed to download audio")) eq_refl) as [H | H].
  - discriminate H.
  - exact H.
Defined.
